(** * manual_worker: a shallow embedding of scripts/manual_worker.py

    The manual-ingestion pipeline (PDF pages -> sections -> regex NER ->
    optional LLM extraction -> JSON records) is translated function by
    function.  Python [str] values are lists of Unicode code points,
    Python [int] values are [Z], and the few [float] quantities that occur
    (cost, confidence, alpha ratio) are exact rationals [Q]. *)

From Stdlib Require Import String Ascii.
From Stdlib Require Import List Bool Arith ZArith NArith QArith Qround Lia.
From Stdlib Require PrimFloat Uint63 Sorted.
Import ListNotations.

Set Implicit Arguments.

(* ================================================================== *)
(** ** Python strings *)
(* ================================================================== *)

Module Py.

(** A character is a Unicode code point. *)
Definition char := N.
Definition str := list char.

(** [cps "abc"] is the Python literal ['abc'] (ASCII literals only). *)
Fixpoint cps (s : string) : str :=
  match s with
  | EmptyString => []
  | String a r => N_of_ascii a :: cps r
  end.

Definition within (lo hi c : N) : bool := ((lo <=? c) && (c <=? hi))%N.

Fixpoint str_eqb (a b : str) : bool :=
  match a, b with
  | [], [] => true
  | x :: a', y :: b' => (x =? y)%N && str_eqb a' b'
  | _, _ => false
  end.

Definition str_dec : forall a b : str, {a = b} + {a <> b} :=
  list_eq_dec N.eq_dec.

(** [str.isspace] on one character: the complete CPython whitespace table. *)
Definition isspace (c : char) : bool :=
  within 9 13 c || within 28 32 c || (c =? 133)%N || (c =? 160)%N
  || (c =? 5760)%N || within 8192 8202 c || (c =? 8232)%N || (c =? 8233)%N
  || (c =? 8239)%N || (c =? 8287)%N || (c =? 12288)%N.

(** [str.isalpha] on one character.  The table is CPython's for
    U+0000..U+00FF, extended with the letters that the patterns of the
    program mention or equate with their letters (the two Greek omegas,
    dotted capital I, dotless i, long s, Kelvin sign); the letters of the
    other Unicode blocks are not tabulated. *)
Definition isalpha (c : char) : bool :=
  within 65 90 c || within 97 122 c
  || (c =? 170)%N || (c =? 181)%N || (c =? 186)%N
  || within 192 214 c || within 216 246 c || within 248 255 c
  || (c =? 937)%N || (c =? 969)%N
  || (c =? 304)%N || (c =? 305)%N || (c =? 383)%N || (c =? 8490)%N.

(** [\d] of the [re] module (Unicode decimal digits; none in U+0080..U+00FF). *)
Definition isdigit (c : char) : bool := within 48 57 c.

(** [\w] of the [re] module: alphanumeric (letters, digits, and the numeric
    characters of Latin-1: superscripts and vulgar fractions) or underscore. *)
Definition isword (c : char) : bool :=
  isalpha c || isdigit c || (c =? 95)%N
  || (c =? 178)%N || (c =? 179)%N || (c =? 185)%N || within 188 190 c.

Definition isupper_latin (c : char) : bool :=
  within 65 90 c || within 192 214 c || within 216 222 c.

(** [str.lower] on one character (U+0000..U+00FF, and capital omega). *)
Definition lower_char (c : char) : char :=
  if isupper_latin c then (c + 32)%N
  else if (c =? 937)%N then 969%N else c.

Definition lower (s : str) : str := map lower_char s.

(** The folding under which [re.IGNORECASE] compares a character with an
    ASCII letter of a pattern: lower-casing, with the four characters the
    engine equates with [i], [s] and [k] (dotted capital I, dotless i,
    long s, Kelvin sign). *)
Definition fold_case (c : char) : char :=
  if (c =? 304)%N || (c =? 305)%N then 105%N
  else if (c =? 383)%N then 115%N
  else if (c =? 8490)%N then 107%N
  else lower_char c.

(** Title-case mapping of one character; may yield two characters
    (sharp s) or leave Latin-1 (micro sign, y with diaeresis). *)
Definition title_char (c : char) : str :=
  if within 97 122 c || within 224 246 c || within 248 254 c then [(c - 32)%N]
  else if (c =? 181)%N then [924%N]
  else if (c =? 223)%N then [83%N; 115%N]
  else if (c =? 255)%N then [376%N]
  else if (c =? 969)%N then [937%N]
  else [c].

(** [str.title]: a character following a cased character is lower-cased,
    any other character is title-cased. *)
Fixpoint title_from (prev_cased : bool) (s : str) : str :=
  match s with
  | [] => []
  | c :: r =>
      (if prev_cased then [lower_char c] else title_char c)
        ++ title_from (isalpha c) r
  end.

Definition title (s : str) : str := title_from false s.

(** [str.lstrip], [str.rstrip], [str.strip] without argument. *)
Fixpoint lstrip (s : str) : str :=
  match s with
  | c :: r => if isspace c then lstrip r else s
  | [] => []
  end.

Definition rstrip (s : str) : str := rev (lstrip (rev s)).
Definition strip (s : str) : str := rstrip (lstrip s).

(** [s.split(sep)] for a one-character separator: never the empty list. *)
Fixpoint split (sep : char) (s : str) : list str :=
  match s with
  | [] => [[]]
  | c :: r =>
      if (c =? sep)%N then [] :: split sep r
      else match split sep r with
           | l :: ls => (c :: l) :: ls
           | [] => [[c]]
           end
  end.

(** [sep.join(xs)]. *)
Fixpoint join (sep : str) (xs : list str) : str :=
  match xs with
  | [] => []
  | [x] => x
  | x :: r => x ++ sep ++ join sep r
  end.

Fixpoint starts_with (p s : str) : bool :=
  match p, s with
  | [], _ => true
  | x :: p', y :: s' => (x =? y)%N && starts_with p' s'
  | _ :: _, [] => false
  end.

(** [sub in s]. *)
Fixpoint contains (sub s : str) : bool :=
  starts_with sub s ||
  match s with
  | [] => false
  | _ :: r => contains sub r
  end.

(** [s.replace(old, new)] for a non-empty [old]: leftmost, non-overlapping. *)
Fixpoint replace_go (old new : str) (skip : nat) (s : str) : str :=
  match s with
  | [] => []
  | c :: r =>
      match skip with
      | S n => replace_go old new n r
      | O => if starts_with old s
             then new ++ replace_go old new (length old - 1) r
             else c :: replace_go old new 0 r
      end
  end.

Definition replace (old new s : str) : str := replace_go old new 0 s.

(** [list(set(xs))]: one representative per distinct string.  Python leaves
    the order of the result unspecified; the model keeps first occurrences
    in order, and the statements below only speak of membership. *)
Definition list_set (xs : list str) : list str := nodup str_dec xs.

(** Decimal rendering of an [int], as [str(n)] and [f"{n}"] give it. *)
Fixpoint digits_go (fuel : nat) (n : N) (acc : str) : str :=
  match fuel with
  | O => acc
  | S f =>
      let acc' := (48 + N.modulo n 10)%N :: acc in
      if (n <? 10)%N then acc' else digits_go f (N.div n 10) acc'
  end.

Definition str_of_N (n : N) : str := digits_go (S (N.to_nat (N.log2 n))) n [].

Definition str_of_int (z : Z) : str :=
  match z with
  | Zneg p => 45%N :: str_of_N (Npos p)
  | _ => str_of_N (Z.to_N z)
  end.

(** [f"{n:03d}"]: at least three characters, zero-padded after the sign. *)
Definition pad3 (d : str) : str := repeat 48%N (3 - length d) ++ d.

Definition fmt_03d (z : Z) : str :=
  match z with
  | Zneg p => 45%N :: repeat 48%N (2 - length (str_of_N (Npos p))) ++ str_of_N (Npos p)
  | _ => pad3 (str_of_N (Z.to_N z))
  end.

End Py.

(* ================================================================== *)
(** ** The fragment of Python's [re] module the program uses *)
(* ================================================================== *)

Module Re.
Import Py.

(** Pattern syntax.  Repetition is only ever applied to a character class
    or, as [?], to a group; both are greedy. *)
Inductive re :=
| Eps
| Cls (p : char -> bool)
| Cat (a b : re)
| Alt (a b : re)
| Rep (p : char -> bool) (lo : nat) (hi : option nat)
| Opt (a : re)
| Bnd
| Bos
| Bol
| Eol.

Definition isword_opt (c : option char) : bool :=
  match c with
  | Some x => isword x
  | None => false
  end.

Section Matcher.
Variable A : Type.

(** Greedy bounded repetition of a class with backtracking: take one more
    character when allowed, and on failure of what follows stop here if
    the lower bound is met. *)
Fixpoint rep_go (p : char -> bool) (lo : nat) (hi : option nat)
         (prev : option char) (s : str)
         (k : option char -> str -> option A) : option A :=
  let stop := if (lo =? 0)%nat then k prev s else None in
  match s with
  | c :: t =>
      if p c && negb (match hi with Some O => true | _ => false end) then
        match rep_go p (lo - 1) (option_map pred hi) (Some c) t k with
        | Some x => Some x
        | None => stop
        end
      else stop
  | [] => stop
  end.

(** Backtracking matcher in continuation-passing style.  [prev] is the
    character before the current position ([None] at the start of the
    string).  [Bos] is [^] without flags; [Bol] and [Eol] are [^] and [$]
    under [re.MULTILINE]; [Bnd] is [\b]. *)
Fixpoint run (r : re) (prev : option char) (s : str)
         (k : option char -> str -> option A) : option A :=
  match r with
  | Eps => k prev s
  | Cls p =>
      match s with
      | c :: t => if p c then k (Some c) t else None
      | [] => None
      end
  | Cat a b => run a prev s (fun prev' s' => run b prev' s' k)
  | Alt a b =>
      match run a prev s k with
      | Some x => Some x
      | None => run b prev s k
      end
  | Rep p lo hi => rep_go p lo hi prev s k
  | Opt a =>
      match run a prev s k with
      | Some x => Some x
      | None => k prev s
      end
  | Bnd =>
      if xorb (isword_opt prev) (isword_opt (hd_error s)) then k prev s else None
  | Bos =>
      match prev with
      | None => k prev s
      | Some _ => None
      end
  | Bol =>
      match prev with
      | None => k prev s
      | Some c => if (c =? 10)%N then k prev s else None
      end
  | Eol =>
      match s with
      | [] => k prev s
      | c :: _ => if (c =? 10)%N then k prev s else None
      end
  end.
End Matcher.

(** The remainder after the match the engine finds at the current position. *)
Definition match_here (r : re) (prev : option char) (s : str) : option str :=
  run r prev s (fun _ rest => Some rest).

(** [pattern.match(s)] as a truth value. *)
Definition matches (r : re) (s : str) : bool :=
  match match_here r None s with
  | Some _ => true
  | None => false
  end.

(** [pattern.findall(s)] for a pattern without capturing groups: the
    non-overlapping matches from left to right. *)
Fixpoint findall_go (r : re) (skip : nat) (prev : option char) (s : str) : list str :=
  match skip with
  | S n =>
      match s with
      | c :: t => findall_go r n (Some c) t
      | [] => []
      end
  | O =>
      match match_here r prev s with
      | Some rest =>
          let n := (length s - length rest)%nat in
          firstn n s ::
            match s with
            | c :: t => findall_go r (n - 1) (Some c) t
            | [] => []
            end
      | None =>
          match s with
          | c :: t => findall_go r 0 (Some c) t
          | [] => []
          end
      end
  end.

Definition findall (r : re) (s : str) : list str := findall_go r 0 None s.

(** [pattern.search(s).group()], when there is a match. *)
Definition search (r : re) (s : str) : option str := hd_error (findall r s).

(** [re.sub(pattern, repl, s)] for a constant replacement. *)
Fixpoint sub_go (r : re) (repl : str) (skip : nat) (prev : option char) (s : str) : str :=
  match skip with
  | S n =>
      match s with
      | c :: t => sub_go r repl n (Some c) t
      | [] => []
      end
  | O =>
      match match_here r prev s with
      | Some rest =>
          let n := (length s - length rest)%nat in
          repl ++
            match s with
            | c :: t =>
                match n with
                | O => c :: sub_go r repl 0 (Some c) t
                | S n' => sub_go r repl n' (Some c) t
                end
            | [] => []
            end
      | None =>
          match s with
          | c :: t => c :: sub_go r repl 0 (Some c) t
          | [] => []
          end
      end
  end.

Definition sub (r : re) (repl s : str) : str := sub_go r repl 0 None s.

(** *** Pattern combinators *)

Definition chr (c : char) : re := Cls (N.eqb c).
(** A literal character under [re.IGNORECASE]. *)
Definition ichr (c : char) : re := Cls (fun x => (fold_case x =? fold_case c)%N).
Definition one_of (cs : str) : char -> bool := fun x => existsb (N.eqb x) cs.

Fixpoint seq (rs : list re) : re :=
  match rs with
  | [] => Eps
  | [r] => r
  | r :: rest => Cat r (seq rest)
  end.

Fixpoint alts (rs : list re) : re :=
  match rs with
  | [] => Cls (fun _ => false)
  | [r] => r
  | r :: rest => Alt r (alts rest)
  end.

Definition lit (s : string) : re := seq (map chr (cps s)).
Definition ilit (s : string) : re := seq (map ichr (cps s)).

Definition plus (p : char -> bool) : re := Rep p 1 None.
Definition star (p : char -> bool) : re := Rep p 0 None.
Definition between (p : char -> bool) (lo hi : nat) : re := Rep p lo (Some hi).
Definition at_least (p : char -> bool) (lo : nat) : re := Rep p lo None.

Definition upper_AZ : char -> bool := within 65 90.
Definition digit_09 : char -> bool := within 48 57.
Definition cls_or (p q : char -> bool) : char -> bool := fun x => p x || q x.

End Re.

(* ================================================================== *)
(** ** scripts/manual_worker.py *)
(* ================================================================== *)

Import Py Re.
Open Scope string_scope.
Open Scope list_scope.

(** *** Regex NER patterns *)

Definition en_dash : char := 8211%N.
Definition omega : char := 937%N.
Definition middle_dot : char := 183%N.
Definition hyphen_or_dash : char -> bool := one_of (45%N :: [en_dash]).

(** The common prefix [\d+(?:\.\d+)?\s*] of the electrical patterns. *)
Definition number_ws : re :=
  seq [plus isdigit; Opt (Cat (chr 46%N) (plus isdigit)); star isspace].

(** [\b[0-9]{4,5}[-–][0-9A-Z]{4,8}\b] *)
Definition RE_PART_NUMBER : re :=
  seq [Bnd; between digit_09 4 5; Cls hyphen_or_dash;
       between (cls_or digit_09 upper_AZ) 4 8; Bnd].

(** [\b\d+(?:\.\d+)?\s*[Vv](?:olt(?:s)?)?\b] *)
Definition RE_VOLTAGE : re :=
  seq [Bnd; number_ws; Cls (one_of (cps "Vv"));
       Opt (Cat (lit "olt") (Opt (lit "s"))); Bnd].

(** [\b\d+(?:\.\d+)?\s*[Aa](?:mp(?:s|ere(?:s)?)?)?\b] *)
Definition RE_AMPERAGE : re :=
  seq [Bnd; number_ws; Cls (one_of (cps "Aa"));
       Opt (Cat (lit "mp") (Opt (Alt (lit "s") (Cat (lit "ere") (Opt (lit "s"))))));
       Bnd].

(** [\b\d+(?:\.\d+)?\s*(?:Ω|[Kk]Ω|ohm(?:s)?)\b] *)
Definition RE_RESISTANCE : re :=
  seq [Bnd; number_ws;
       alts [chr omega;
             Cat (Cls (one_of (cps "Kk"))) (chr omega);
             Cat (lit "ohm") (Opt (lit "s"))];
       Bnd].

(** [\b\d+(?:\.\d+)?\s*(?:N[·.]m|ft[·.\-]?lb(?:f)?|kgf[·.]cm)\b] *)
Definition RE_TORQUE : re :=
  seq [Bnd; number_ws;
       alts [seq [lit "N"; Cls (one_of (middle_dot :: cps ".")); lit "m"];
             seq [lit "ft"; between (one_of (middle_dot :: cps ".-")) 0 1;
                  lit "lb"; Opt (lit "f")];
             seq [lit "kgf"; Cls (one_of (middle_dot :: cps ".")); lit "cm"]];
       Bnd].

(** [\b[A-Z][0-9]{1,4}\b] *)
Definition RE_CONNECTOR : re :=
  seq [Bnd; Cls upper_AZ; between digit_09 1 4; Bnd].

(** The palette shared by both halves of [RE_WIRE_COLORS]. *)
Definition wire_color : re :=
  alts [ilit "BLK"; ilit "WHT"; ilit "RED"; ilit "GRN"; ilit "BLU"; ilit "YEL";
        ilit "ORG"; ilit "PNK"; ilit "BRN"; ilit "GRY"; ilit "VIO"; ilit "PUR";
        ilit "TAN";
        seq [ilit "LT"; star isspace; ilit "GRN"];
        seq [ilit "LT"; star isspace; ilit "BLU"];
        seq [ilit "DK"; star isspace; ilit "GRN"];
        seq [ilit "DK"; star isspace; ilit "BLU"]].

(** [\b(?:BLK|...|DK\s*BLU)(?:/(?:BLK|...|DK\s*BLU))?\b], IGNORECASE *)
Definition RE_WIRE_COLORS : re :=
  seq [Bnd; wire_color; Opt (Cat (chr 47%N) wire_color); Bnd].

(** [\b(?:DOT\s*[34]|ATF(?:\s*WS)?|CVT\s*fluid|[05]W[-–][23]0|75W[-–]90|GL[-–][45])\b],
    IGNORECASE *)
Definition RE_FLUID : re :=
  seq [Bnd;
       alts [seq [ilit "DOT"; star isspace; Cls (one_of (cps "34"))];
             seq [ilit "ATF"; Opt (Cat (star isspace) (ilit "WS"))];
             seq [ilit "CVT"; star isspace; ilit "fluid"];
             seq [Cls (one_of (cps "05")); ilit "W"; Cls hyphen_or_dash;
                  Cls (one_of (cps "23")); lit "0"];
             seq [lit "75"; ilit "W"; Cls hyphen_or_dash; lit "90"];
             seq [ilit "GL"; Cls hyphen_or_dash; Cls (one_of (cps "45"))]];
       Bnd].

(** [\b(?:ECU|PCM|...|switch)\b], IGNORECASE *)
Definition RE_COMPONENT_TYPES : re :=
  seq [Bnd;
       alts (map ilit ["ECU"; "PCM"; "BCM"; "TCM"; "ABS"; "SRS"; "HVAC"; "sensor";
                       "relay"; "fuse"; "actuator"; "solenoid"; "motor"; "pump";
                       "valve"; "switch"]);
       Bnd].

(** [^\s*(?:table\s+of\s+contents|index|copyright|disclaimer|foreword|preface|how\s+to\s+use)],
    IGNORECASE *)
Definition SKIP_PATTERNS : re :=
  seq [Bos; star isspace;
       alts [seq [ilit "table"; plus isspace; ilit "of"; plus isspace; ilit "contents"];
             ilit "index"; ilit "copyright"; ilit "disclaimer"; ilit "foreword";
             ilit "preface";
             seq [ilit "how"; plus isspace; ilit "to"; plus isspace; ilit "use"]]].

(** *** Section heading detection *)

(** [^[A-Z][A-Z\s\-/&]{4,}$], MULTILINE *)
Definition RE_ALL_CAPS_HEADING : re :=
  seq [Bol; Cls upper_AZ;
       at_least (cls_or upper_AZ (cls_or isspace (one_of (cps "-/&")))) 4; Eol].

(** [^\d+[\.\-]\d*\s+[A-Z]], MULTILINE *)
Definition RE_NUMBERED_SECTION : re :=
  seq [Bol; plus isdigit; Cls (one_of (cps ".-")); star isdigit; plus isspace;
       Cls upper_AZ].

(** [^(?:Chapter|Section|CHAPTER|SECTION)\s+\d+], MULTILINE *)
Definition RE_CHAPTER : re :=
  seq [Bol; alts [lit "Chapter"; lit "Section"; lit "CHAPTER"; lit "SECTION"];
       plus isspace; plus isdigit].

(** *** Vehicle metadata *)

Record vehicle := mk_vehicle { make : str; model : str; year : Z }.

(** [Path(p).name] for a POSIX path: the last component, empty and ["."]
    components being dropped by the path parser. *)
Definition path_name (p : str) : str :=
  last (filter (fun c => negb (str_eqb c [] || str_eqb c (cps "."))) (split 47%N p)) [].

(** [name.rfind('.')], counted from the left; [None] when there is no dot. *)
Fixpoint rfind_dot (i : nat) (s : str) : option nat :=
  match s with
  | [] => None
  | c :: r =>
      match rfind_dot (S i) r with
      | Some j => Some j
      | None => if (c =? 46)%N then Some i else None
      end
  end.

(** [Path(p).stem]: the name without its last suffix. *)
Definition path_stem (p : str) : str :=
  let name := path_name p in
  match rfind_dot 0 name with
  | Some i => if (0 <? i)%nat && (i <? length name - 1)%nat then firstn i name else name
  | None => name
  end.

(** [int(s)] on a run of ASCII digits. *)
Definition int_of_digits (s : str) : Z :=
  fold_left (fun acc c => acc * 10 + (Z.of_N c - 48))%Z s 0%Z.

(** [(19|20)\d{2}] *)
Definition RE_YEAR : re :=
  seq [Alt (lit "19") (lit "20"); between isdigit 2 2].

(** The insertion-ordered [known_makes] dictionary. *)
Definition known_makes : list (string * string) :=
  [("toyota", "Toyota"); ("honda", "Honda"); ("ford", "Ford");
   ("chevrolet", "Chevrolet"); ("nissan", "Nissan"); ("bmw", "BMW");
   ("mercedes", "Mercedes-Benz"); ("hyundai", "Hyundai"); ("kia", "Kia");
   ("subaru", "Subaru"); ("mazda", "Mazda"); ("lexus", "Lexus")].

(** The four patterns removed from the model name, compiled with IGNORECASE. *)
Definition model_noise : list re :=
  [RE_YEAR;
   seq [ilit "repair"; between (one_of (cps "-_")) 0 1; ilit "manual"];
   seq [ilit "service"; between (one_of (cps "-_")) 0 1; ilit "manual"];
   ilit "owner"].

Definition or_else (s d : str) : str :=
  match s with
  | [] => d
  | _ => s
  end.

Definition detect_vehicle_from_filename (pdf_path : str) : vehicle :=
  let name := lower (path_stem pdf_path) in
  let year :=
    match search RE_YEAR name with
    | Some g => int_of_digits g
    | None => 0%Z
    end in
  let make :=
    match find (fun kv => contains (cps (fst kv)) name) known_makes with
    | Some kv => cps (snd kv)
    | None => []
    end in
  let model := fold_left (fun m pat => sub pat [] m) model_noise name in
  let model := fold_left (fun m kv => replace (cps (fst kv)) [] m) known_makes model in
  let model := strip (sub (plus (one_of (cps "-_"))) (cps " ") model) in
  let model := or_else model (cps "Unknown") in
  let special := contains (cps "3s") name && contains (cps "gte") name in
  let make := if special then or_else make (cps "Toyota") else make in
  let model := if special then cps "3S-GTE" else model in
  mk_vehicle (or_else make (cps "Unknown")) model year.

(** *** Stage 1: pages and sections *)

Definition table := list (list (option str)).

(** What the PDF library yields for a page: [extract_text()] may be [None]. *)
Record page := mk_page { page_text : option str; page_tables : list table }.

Record section := mk_section {
  sec_title : str;
  sec_content : str;
  sec_pages : list Z;
  sec_tables : list table
}.

Definition nonempty_list (A : Type) (l : list A) : bool :=
  match l with
  | [] => false
  | _ => true
  end.

(** Truth value of a string. *)
Definition nonempty (s : str) : bool := nonempty_list s.

(** The three heading tests on a stripped, non-blank line, in order. *)
Definition line_heading (line : str) : option str :=
  if matches RE_ALL_CAPS_HEADING line && (5 <? length line)%nat
  then Some (title line)
  else if matches RE_CHAPTER line then Some (strip line)
  else if matches RE_NUMBERED_SECTION line then Some (strip line)
  else None.

(** The inner loop of [extract_sections] over the lines to check:
    [continue] on a blank line, [break] at the first heading signal. *)
Fixpoint scan_heading (lines : list str) : option str :=
  match lines with
  | [] => None
  | l :: rest =>
      let line := strip l in
      if negb (nonempty line) then scan_heading rest
      else match line_heading line with
           | Some heading => Some heading
           | None => scan_heading rest
           end
  end.

(** [for line in text.split('\n')[:5]: ...] *)
Definition detect_heading (text : str) : option str :=
  scan_heading (firstn 5 (split 10%N text)).

Definition new_section (t : str) : section := mk_section t [] [] [].

(** One iteration of the page loop on the pair (sections, current_section). *)
Definition page_step (st : list section * section) (page_num : Z) (p : page)
  : list section * section :=
  let '(sections, current) := st in
  let text := match page_text p with Some t => t | None => [] end in
  let '(sections, current) :=
    match detect_heading text with
    | Some heading =>
        if nonempty heading && negb (str_eqb heading (sec_title current)) then
          (if nonempty (strip (sec_content current))
           then sections ++ [current] else sections,
           new_section heading)
        else (sections, current)
    | None => (sections, current)
    end in
  (sections,
   mk_section (sec_title current)
              (sec_content current ++ text ++ [10%N])
              (sec_pages current ++ [page_num])
              (sec_tables current ++ page_tables p)).

(** The page loop; [i] is the zero-based index of the first page of [ps]. *)
Fixpoint page_loop (st : list section * section) (i : Z) (ps : list page)
  : list section * section :=
  match ps with
  | [] => st
  | p :: rest => page_loop (page_step st (i + 1) p) (i + 1) rest
  end.

(** Number of pages the loop visits: [min(page_limit, total_pages)]. *)
Definition pages_processed (pages : list page) (max_pages : Z) : nat :=
  let total_pages := Z.of_nat (length pages) in
  let page_limit := if (0 <? max_pages)%Z then max_pages else total_pages in
  Z.to_nat (Z.min page_limit total_pages).

(** [extract_sections] on the pages of an opened document. *)
Definition extract_sections (pages : list page) (max_pages : Z) : list section :=
  let '(sections, current) :=
    page_loop ([], new_section (cps "Introduction")) 0
              (firstn (pages_processed pages max_pages) pages) in
  if nonempty (strip (sec_content current)) then sections ++ [current] else sections.

(** *** Stage 2: regex NER *)

(** The entity bundle, a dictionary in insertion order. *)
Definition regex_ner (text : str) : list (string * list str) :=
  [("part_numbers", list_set (findall RE_PART_NUMBER text));
   ("voltages", list_set (findall RE_VOLTAGE text));
   ("amperages", list_set (findall RE_AMPERAGE text));
   ("resistances", list_set (findall RE_RESISTANCE text));
   ("torques", list_set (findall RE_TORQUE text));
   ("wire_colors", list_set (findall RE_WIRE_COLORS text));
   ("fluids", list_set (findall RE_FLUID text));
   ("component_types", list_set (findall RE_COMPONENT_TYPES text));
   ("connectors", list_set (firstn 20 (findall RE_CONNECTOR text)))].

(** [d.get(key)] on such a dictionary. *)
Definition dict_get (A : Type) (key : string) (d : list (string * A)) : option A :=
  option_map snd (find (fun kv => String.eqb (fst kv) key) d).

(** *** Skip rules *)

Definition count_alpha (content : str) : nat :=
  length (filter isalpha content).

(** [sum(c.isalpha() for c in content) / max(len(content), 1)], as the exact
    quotient.  (The program divides in binary64; the quotient of two
    integers is correctly rounded, so the comparison with the literal [0.3]
    agrees with the exact one for every content shorter than 10^15
    characters.) *)
Definition alpha_ratio (content : str) : Q :=
  Z.of_nat (count_alpha content) # Pos.of_nat (Nat.max (length content) 1).

Definition Qlt_bool (a b : Q) : bool := negb (Qle_bool b a).

Definition should_skip_section (title content : str) : bool :=
  if matches SKIP_PATTERNS title then true
  else if (length (strip content) <? 200)%nat then true
  else if Qlt_bool (alpha_ratio content) (3 # 10) then true
  else false.

(* ================================================================== *)
(** ** [str.encode()] and [hashlib.md5] *)
(* ================================================================== *)

Module Digest.
Import Py.
Local Open Scope Z_scope.

(** UTF-8 encoding of one code point; surrogates cannot be encoded. *)
Definition utf8_char (c : char) : option (list Z) :=
  let z := Z.of_N c in
  if z <? 0x80 then Some [z]
  else if z <? 0x800 then
    Some [Z.lor 0xC0 (Z.shiftr z 6); Z.lor 0x80 (Z.land z 0x3F)]
  else if (0xD800 <=? z) && (z <=? 0xDFFF) then None
  else if z <? 0x10000 then
    Some [Z.lor 0xE0 (Z.shiftr z 12);
          Z.lor 0x80 (Z.land (Z.shiftr z 6) 0x3F);
          Z.lor 0x80 (Z.land z 0x3F)]
  else if z <? 0x110000 then
    Some [Z.lor 0xF0 (Z.shiftr z 18);
          Z.lor 0x80 (Z.land (Z.shiftr z 12) 0x3F);
          Z.lor 0x80 (Z.land (Z.shiftr z 6) 0x3F);
          Z.lor 0x80 (Z.land z 0x3F)]
  else None.

(** [s.encode()]; [None] stands for [UnicodeEncodeError]. *)
Fixpoint encode (s : str) : option (list Z) :=
  match s with
  | [] => Some []
  | c :: r =>
      match utf8_char c, encode r with
      | Some b, Some bs => Some (b ++ bs)
      | _, _ => None
      end
  end.

Definition w32 (x : Z) : Z := Z.land x 0xFFFFFFFF.
Definition rotl32 (x n : Z) : Z :=
  w32 (Z.lor (Z.shiftl x n) (Z.shiftr (w32 x) (32 - n))).
Definition not32 (x : Z) : Z := Z.lxor (w32 x) 0xFFFFFFFF.

(** Per-round shift amounts and sine-derived constants of RFC 1321. *)
Definition md5_s : list Z :=
  [7; 12; 17; 22; 7; 12; 17; 22; 7; 12; 17; 22; 7; 12; 17; 22;
   5; 9; 14; 20; 5; 9; 14; 20; 5; 9; 14; 20; 5; 9; 14; 20;
   4; 11; 16; 23; 4; 11; 16; 23; 4; 11; 16; 23; 4; 11; 16; 23;
   6; 10; 15; 21; 6; 10; 15; 21; 6; 10; 15; 21; 6; 10; 15; 21].

Definition md5_K : list Z :=
  [
   0xd76aa478; 0xe8c7b756; 0x242070db; 0xc1bdceee;
   0xf57c0faf; 0x4787c62a; 0xa8304613; 0xfd469501;
   0x698098d8; 0x8b44f7af; 0xffff5bb1; 0x895cd7be;
   0x6b901122; 0xfd987193; 0xa679438e; 0x49b40821;
   0xf61e2562; 0xc040b340; 0x265e5a51; 0xe9b6c7aa;
   0xd62f105d; 0x02441453; 0xd8a1e681; 0xe7d3fbc8;
   0x21e1cde6; 0xc33707d6; 0xf4d50d87; 0x455a14ed;
   0xa9e3e905; 0xfcefa3f8; 0x676f02d9; 0x8d2a4c8a;
   0xfffa3942; 0x8771f681; 0x6d9d6122; 0xfde5380c;
   0xa4beea44; 0x4bdecfa9; 0xf6bb4b60; 0xbebfbc70;
   0x289b7ec6; 0xeaa127fa; 0xd4ef3085; 0x04881d05;
   0xd9d4d039; 0xe6db99e5; 0x1fa27cf8; 0xc4ac5665;
   0xf4292244; 0x432aff97; 0xab9423a7; 0xfc93a039;
   0x655b59c3; 0x8f0ccc92; 0xffeff47d; 0x85845dd1;
   0x6fa87e4f; 0xfe2ce6e0; 0xa3014314; 0x4e0811a1;
   0xf7537e82; 0xbd3af235; 0x2ad7d2bb; 0xeb86d391
  ].

(** Little-endian 32-bit word from four bytes, and back. *)
Definition word_le (b0 b1 b2 b3 : Z) : Z :=
  Z.lor b0 (Z.lor (Z.shiftl b1 8) (Z.lor (Z.shiftl b2 16) (Z.shiftl b3 24))).

Definition bytes_le (w : Z) : list Z :=
  [Z.land w 0xFF; Z.land (Z.shiftr w 8) 0xFF;
   Z.land (Z.shiftr w 16) 0xFF; Z.land (Z.shiftr w 24) 0xFF].

Fixpoint words_le (n : nat) (bs : list Z) : list Z :=
  match n, bs with
  | S n', b0 :: b1 :: b2 :: b3 :: rest => word_le b0 b1 b2 b3 :: words_le n' rest
  | _, _ => []
  end.

Definition md5_state := (Z * Z * Z * Z)%type.

(** One of the 64 operations on a block [M] of sixteen words. *)
Definition md5_op (M : list Z) (st : md5_state) (i : nat) : md5_state :=
  let '(a, b, c, d) := st in
  let iz := Z.of_nat i in
  let '(f, g) :=
    if iz <? 16 then (Z.lor (Z.land b c) (Z.land (not32 b) d), iz)
    else if iz <? 32 then (Z.lor (Z.land d b) (Z.land (not32 d) c), (5 * iz + 1) mod 16)
    else if iz <? 48 then (Z.lxor b (Z.lxor c d), (3 * iz + 5) mod 16)
    else (Z.lxor c (Z.lor b (not32 d)), (7 * iz) mod 16) in
  let f' := w32 (f + a + nth i md5_K 0 + nth (Z.to_nat g) M 0) in
  (d, w32 (b + rotl32 f' (nth i md5_s 0)), b, c).

Definition md5_block (st : md5_state) (M : list Z) : md5_state :=
  let '(a0, b0, c0, d0) := st in
  let '(a, b, c, d) := fold_left (md5_op M) (List.seq 0 64) st in
  (w32 (a0 + a), w32 (b0 + b), w32 (c0 + c), w32 (d0 + d)).

Fixpoint md5_blocks (n : nat) (st : md5_state) (bs : list Z) : md5_state :=
  match n with
  | O => st
  | S n' => md5_blocks n' (md5_block st (words_le 16 bs)) (skipn 64 bs)
  end.

(** Message padding: a one bit, zeros up to 56 mod 64, the bit length. *)
Definition md5_pad (msg : list Z) : list Z :=
  let len := Z.of_nat (length msg) in
  let zeros := Z.to_nat ((55 - len) mod 64) in
  let bits := 8 * len in
  msg ++ [0x80] ++ repeat 0 zeros
      ++ bytes_le (w32 bits) ++ bytes_le (w32 (Z.shiftr bits 32)).

Definition md5 (msg : list Z) : list Z :=
  let padded := md5_pad msg in
  let '(a, b, c, d) :=
    md5_blocks (length padded / 64)
               (0x67452301, 0xefcdab89, 0x98badcfe, 0x10325476) padded in
  bytes_le a ++ bytes_le b ++ bytes_le c ++ bytes_le d.

Definition hex_digit (n : Z) : char :=
  Z.to_N (if n <? 10 then 48 + n else 87 + n).

(** [.hexdigest()] *)
Definition hexdigest (bs : list Z) : str :=
  flat_map (fun b => [hex_digit (Z.shiftr b 4); hex_digit (Z.land b 0xF)]) bs.

End Digest.

(* ================================================================== *)
(** ** Stages 3 and 4, the orchestrator and the command line *)
(* ================================================================== *)

Import Digest.

(** *** Stage 3: the optional LLM extraction *)

Record component := mk_component {
  comp_name : str;
  comp_type : str;
  comp_part_number : str
}.

(** The JSON object parsed from the reply; a key may be absent.
    Relationship and procedure descriptors are carried unanalysed. *)
Record llm_json := mk_llm_json {
  j_system : option str;
  j_subsystem : option str;
  j_doc_type : option str;
  j_components : option (list component);
  j_relationships : option (list str);
  j_procedures : option (list str);
  j_confidence : option Q
}.

Record reply := mk_reply {
  reply_json : llm_json;
  input_tokens : Z;
  output_tokens : Z
}.

(** A live client maps the user message of a request to its parsed reply;
    [None] is any exception raised inside the [try] block of
    [claude_extract] (transport error, unparseable or non-object JSON). *)
Definition client := str -> option reply.

Record claude_result := mk_claude_result {
  cr_json : llm_json;
  cr_cost_usd : Q;
  cr_input_tokens : Z;
  cr_output_tokens : Z
}.

(** [round(x)] to the nearest integer, ties to even. *)
Definition round_half_even (x : Q) : Z :=
  let f := Qfloor x in
  let r := (x - inject_Z f)%Q in
  match (r ?= 1 # 2)%Q with
  | Lt => f
  | Gt => (f + 1)%Z
  | Eq => if Z.even f then f else (f + 1)%Z
  end.

(** [round(x, 6)] *)
Definition round6 (x : Q) : Q :=
  (inject_Z (round_half_even (x * 1000000)) / 1000000)%Q.

(** The cost attached to a result (sonnet pricing: $3/$15 per MTok):
    [round((input_tokens * 3.0 + output_tokens * 15.0) / 1_000_000, 6)]. *)
Definition cost_usd (input_tokens output_tokens : Z) : Q :=
  round6 ((inject_Z input_tokens * 3 + inject_Z output_tokens * 15) / 1000000)%Q.

Definition ner_list (key : string) (ner : list (string * list str)) : list str :=
  match dict_get key ner with
  | Some l => l
  | None => []
  end.

(** The user message of the request. *)
Definition claude_prompt (section_title section_content : str) (v : vehicle)
           (ner : list (string * list str)) : str :=
  let parts := ner_list "part_numbers" ner in
  let comps := ner_list "component_types" ner in
  let ner_context :=
    (if nonempty_list parts
     then cps "
Pre-extracted part numbers: " ++ join (cps ", ") parts else [])
    ++ (if nonempty_list comps
        then cps "
Detected component types: " ++ join (cps ", ") comps else []) in
  cps "Vehicle: " ++ str_of_int (year v) ++ cps " " ++ make v ++ cps " " ++ model v
  ++ [10%N] ++ cps "Manual section: " ++ section_title ++ [10%N] ++ ner_context
  ++ [10%N; 10%N] ++ firstn (Z.to_nat 3000) section_content.

Definition claude_extract (c : client) (section_title section_content : str)
           (v : vehicle) (ner : list (string * list str)) : option claude_result :=
  match c (claude_prompt section_title section_content v ner) with
  | Some r =>
      Some (mk_claude_result (reply_json r)
                             (cost_usd (input_tokens r) (output_tokens r))
                             (input_tokens r) (output_tokens r))
  | None => None
  end.

(** *** Stage 4: the output record *)

Record metadata := mk_metadata {
  md_vehicle : str;
  md_vehicle_info : vehicle;
  md_section : str;
  md_components : str;
  doc_type : str;
  extracted_components : list component;
  extracted_relationships : list str;
  extracted_procedures : list str;
  confidence : Q;
  page_range : str;
  part_numbers : list str;
  ner_results : list (string * list str);
  claude_cost_usd : Q
}.

Record record := mk_record {
  source : str;
  source_id : str;
  rec_title : str;
  content : str;
  author : str;
  url : str;
  published_at : str;
  scraped_at : str;
  meta : metadata
}.

Definition get_or (A : Type) (o : option A) (d : A) : A :=
  match o with
  | Some x => x
  | None => d
  end.

(** [s.lower().replace(" ", "-")] *)
Definition slug (s : str) : str := replace (cps " ") (cps "-") (lower s).

Definition make_source_id (v : vehicle) (section_idx : Z) : str :=
  cps "manual:" ++ slug (make v) ++ cps "-" ++ slug (model v) ++ cps "-"
  ++ str_of_int (year v) ++ cps ":section-" ++ str_of_int section_idx.

Definition build_output (s : section) (section_idx : Z) (v : vehicle)
           (ner : list (string * list str)) (cr : option claude_result)
           (pdf_path now : str) : record :=
  let pages := sec_pages s in
  let page_range :=
    match pages with
    | [] => []
    | p0 :: _ => str_of_int p0 ++ cps "-" ++ str_of_int (last pages p0)
    end in
  let '(system, subsystem, doc_type, components, relationships, procedures,
        confidence, cost) :=
    match cr with
    | Some r =>
        let j := cr_json r in
        (get_or (j_system j) [], get_or (j_subsystem j) [],
         get_or (j_doc_type j) (cps "overview"),
         get_or (j_components j) [], get_or (j_relationships j) [],
         get_or (j_procedures j) [], get_or (j_confidence j) (1 # 2),
         cr_cost_usd r)
    | None => ([], [], cps "overview", [], [], [], 1 # 2, 0 # 1)
    end in
  let comp_names :=
    match components with
    | [] => ner_list "component_types" ner
    | _ => map comp_name components
    end in
  mk_record
    (cps "manual")
    (make_source_id v section_idx)
    (sec_title s)
    (firstn (Z.to_nat 10000) (sec_content s))
    (cps "OEM")
    (cps "file://" ++ pdf_path ++ cps "#page="
         ++ str_of_int (match pages with p0 :: _ => p0 | [] => 1%Z end))
    (if (year v =? 0)%Z then []
     else str_of_int (year v) ++ cps "-01-01T00:00:00Z")
    now
    (mk_metadata
       (str_of_int (year v) ++ cps " " ++ make v ++ cps " " ++ model v)
       v
       (if nonempty system then system ++ cps "/" ++ subsystem else sec_title s)
       (join (cps ", ") (firstn 20 comp_names))
       doc_type components relationships procedures confidence page_range
       (ner_list "part_numbers" ner)
       (filter (fun kv => nonempty_list (snd kv)) ner)
       cost).

(** *** The orchestrator *)

(** Everything outside the program that a run observes. *)
Record world := mk_world {
  path_exists : str -> bool;               (* os.path.exists *)
  abspath : str -> str;                    (* os.path.abspath *)
  open_pdf : str -> option (list page);    (* pdfplumber.open; None: it raises *)
  env_api_key : option str;                (* os.environ.get("ANTHROPIC_API_KEY") *)
  anthropic_client : option client;        (* None: import or constructor raises *)
  utc_now : str                            (* the formatted wall-clock time *)
}.

Record written_file := mk_written {
  file_path : str;
  file_name : str;
  file_record : record
}.

(** What a run of [process_pdf] leaves behind.  Creating the output
    directory and writing a file are taken to succeed. *)
Record run := mk_run {
  raised : bool;                   (* an exception escaped *)
  files : list written_file;       (* output files, in the order written *)
  llm_requests : list str;         (* user messages sent to the LLM service *)
  total_claude_calls : nat;
  total_cost : Q
}.

Definition empty_run : run := mk_run false [] [] 0 0.

(** [os.path.join(dir, name)] for a relative [name]. *)
Definition path_join (dir name : str) : str :=
  match dir with
  | [] => name
  | _ => if (last dir 0 =? 47)%N then dir ++ name else dir ++ [47%N] ++ name
  end.

(** [hashlib.md5(content[:500].encode()).hexdigest()[:8]] *)
Definition content_hash (content : str) : option str :=
  option_map (fun bytes => firstn 8 (hexdigest (md5 bytes)))
             (encode (firstn 500 content)).

Definition output_filename (v : vehicle) (idx : Z) (hash : str) : str :=
  cps "manual-" ++ slug (make v) ++ cps "-" ++ slug (model v) ++ cps "-"
  ++ str_of_int (year v) ++ cps "-s" ++ fmt_03d idx ++ cps "-" ++ hash ++ cps ".json".

(** The body of [for idx, section in enumerate(sections)]. *)
Fixpoint process_sections (cl : option client) (v : vehicle)
         (pdf_path output_dir now : str) (idx : Z) (sections : list section)
         (acc : run) : run :=
  match sections with
  | [] => acc
  | s :: rest =>
      let next := process_sections cl v pdf_path output_dir now (idx + 1) rest in
      if should_skip_section (sec_title s) (sec_content s) then next acc
      else
        let ner := regex_ner (sec_content s) in
        let '(cr, acc) :=
          match cl with
          | Some c =>
              if (200 <? length (strip (sec_content s)))%nat then
                let cr := claude_extract c (sec_title s) (sec_content s) v ner in
                let sent := llm_requests acc
                            ++ [claude_prompt (sec_title s) (sec_content s) v ner] in
                match cr with
                | Some r =>
                    (cr, mk_run (raised acc) (files acc) sent
                                (S (total_claude_calls acc))
                                (total_cost acc + cr_cost_usd r))
                | None =>
                    (cr, mk_run (raised acc) (files acc) sent
                                (total_claude_calls acc) (total_cost acc))
                end
              else (None, acc)
          | None => (None, acc)
          end in
        let output := build_output s idx v ner cr pdf_path now in
        match content_hash (sec_content s) with
        | None =>
            mk_run true (files acc) (llm_requests acc)
                   (total_claude_calls acc) (total_cost acc)
        | Some h =>
            let filename := output_filename v idx h in
            next (mk_run (raised acc)
                         (files acc ++ [mk_written (path_join output_dir filename)
                                                   filename output])
                         (llm_requests acc) (total_claude_calls acc) (total_cost acc))
        end
  end.

(** The client set up by [process_pdf]: none without a credential. *)
Definition setup_client (w : world) : option client :=
  match env_api_key w with
  | Some (_ :: _) => anthropic_client w
  | _ => None
  end.

Definition process_pdf (w : world) (pdf_path output_dir : str)
           (vehicle_override : option vehicle) (max_pages : Z) : run :=
  let pdf_path := abspath w pdf_path in
  let v := match vehicle_override with
           | Some v => v
           | None => detect_vehicle_from_filename pdf_path
           end in
  match open_pdf w pdf_path with
  | None => mk_run true [] [] 0 0
  | Some pages =>
      match extract_sections pages max_pages with
      | [] => empty_run
      | sections =>
          process_sections (setup_client w) v pdf_path output_dir (utc_now w)
                           0 sections empty_run
      end
  end.

(** *** The command line *)

(** [int(s)]: optional surrounding whitespace, optional sign, decimal digits
    with single underscores between them; [None] stands for [ValueError]. *)
Fixpoint parse_digits (acc : Z) (prev_digit : bool) (s : str) : option Z :=
  match s with
  | [] => if prev_digit then Some acc else None
  | c :: r =>
      if isdigit c then parse_digits (acc * 10 + (Z.of_N c - 48)) true r
      else if (c =? 95)%N && prev_digit then parse_digits acc false r
      else None
  end.

Definition parse_int (s : str) : option Z :=
  match strip s with
  | c :: r =>
      if (c =? 45)%N then option_map Z.opp (parse_digits 0 false r)
      else if (c =? 43)%N then parse_digits 0 false r
      else parse_digits 0 false (c :: r)
  | [] => None
  end.

(** The [while i < len(args) - 1] loop on the state (vehicle, max_pages):
    an iteration needs two remaining arguments; a recognised flag consumes
    both, anything else one. *)
Fixpoint parse_loop (st : vehicle * Z) (args : list str) : option (vehicle * Z) :=
  match args with
  | a :: tail =>
      match tail with
      | b :: rest =>
          let '(v, max_pages) := st in
          if str_eqb a (cps "--make") then
            parse_loop (mk_vehicle b (model v) (year v), max_pages) rest
          else if str_eqb a (cps "--model") then
            parse_loop (mk_vehicle (make v) b (year v), max_pages) rest
          else if str_eqb a (cps "--year") then
            match parse_int b with
            | Some y => parse_loop (mk_vehicle (make v) (model v) y, max_pages) rest
            | None => None
            end
          else if str_eqb a (cps "--max-pages") then
            match parse_int b with
            | Some n => parse_loop (v, n) rest
            | None => None
            end
          else parse_loop st tail
      | [] => Some st
      end
  | [] => Some st
  end.

(** Lines 402-419 of [main]: the vehicle override and the page limit. *)
Definition parse_overrides (pdf_path : str) (args : list str)
  : option (option vehicle * Z) :=
  match args with
  | [] => Some (None, 0%Z)
  | _ =>
      match parse_loop (detect_vehicle_from_filename pdf_path, 0%Z) args with
      | Some (v, max_pages) => Some (Some v, max_pages)
      | None => None
      end
  end.

Record exit := mk_exit { exit_code : Z; exit_run : run }.

(** [main] on [sys.argv]; an uncaught exception ends the process with
    status 1, normal termination with status 0. *)
Definition main (w : world) (argv : list str) : exit :=
  match argv with
  | _ :: pdf_path :: output_dir :: args =>
      if negb (path_exists w pdf_path) then mk_exit 1 empty_run
      else
        match parse_overrides pdf_path args with
        | None => mk_exit 1 empty_run
        | Some (vehicle, max_pages) =>
            let r := process_pdf w pdf_path output_dir vehicle max_pages in
            mk_exit (if raised r then 1 else 0) r
        end
  | _ => mk_exit 1 empty_run
  end.

(* ================================================================== *)
(** ** Vocabulary of the properties *)
(* ================================================================== *)

(** Sixty letters among two hundred characters, and fifty-eight. *)
Definition ratio_30_content : str := repeat 97%N 60 ++ repeat 49%N 140.
Definition ratio_29_content : str := repeat 97%N 58 ++ repeat 49%N 142.

(** The same two computations in IEEE binary64, as the interpreter carries
    them out on small integers: the alpha-ratio test against the literal
    [0.3], and the cost before rounding. *)
Module Binary64.
Import PrimFloat.
Local Open Scope float_scope.

Definition float_of_Z (z : Z) : float := of_uint63 (Uint63.of_Z z).

Definition alpha_test (alpha len : Z) : bool :=
  ltb (float_of_Z alpha / float_of_Z (Z.max len 1)) 0x1.3333333333333p-2.

Definition cost (input_tokens output_tokens : Z) : float :=
  (float_of_Z input_tokens * 3 + float_of_Z output_tokens * 15) / 1000000.

(** The double nearest to 0.0105. *)
Definition cost_0_0105 : float := 0x1.5810624dd2f1bp-7.

End Binary64.

(** The categories that [regex_ner] deduplicates without any cap. *)
Definition uncapped_categories : list (string * re) :=
  [("part_numbers", RE_PART_NUMBER); ("voltages", RE_VOLTAGE);
   ("amperages", RE_AMPERAGE); ("resistances", RE_RESISTANCE);
   ("torques", RE_TORQUE); ("wire_colors", RE_WIRE_COLORS);
   ("fluids", RE_FLUID); ("component_types", RE_COMPONENT_TYPES)].

(** [l] holds exactly the distinct elements of [raw]. *)
Definition dedup_of (raw l : list str) : Prop :=
  NoDup l /\ forall x, In x l <-> In x raw.



(** [s.strip()] is truthy: the test that decides whether a section is kept. *)
Definition nonblank (s : str) : bool := nonempty (strip s).

Definition nonspace (c : char) : bool := negb (isspace c).

Definition page_numbers (n : nat) : list Z := map Z.of_nat (List.seq 1 n).

Definition text_of (p : page) : str :=
  match page_text p with
  | Some t => t
  | None => []
  end.

(** The text of page number [i] (1-based) of a document. *)
Definition page_text_at (pages : list page) (i : Z) : str :=
  match nth_error pages (Z.to_nat (i - 1)) with
  | Some p => text_of p
  | None => []
  end.

Definition kept (g : section) : bool := nonblank (sec_content g).

Definition all_pages (l : list section) : list Z := concat (map sec_pages l).

(** A page with non-blank text makes the content of its section non-blank;
    [txt] gives the text of each page by page number. *)
Definition carries_text (txt : Z -> str) (g : section) : Prop :=
  forall i, In i (sec_pages g) -> nonblank (txt i) = true -> kept g = true.

(** State of the page loop after [n] pages: the closed sections are the
    kept ones among a list of groups that, followed by the open section,
    split the page numbers 1..n in order. *)
Definition loop_inv (txt : Z -> str) (n : nat) (st : list section * section) : Prop :=
  exists groups,
    fst st = filter kept groups
    /\ all_pages groups ++ sec_pages (snd st) = page_numbers n
    /\ Forall (carries_text txt) groups
    /\ carries_text txt (snd st).


(** No credential: the variable is unset or empty. *)
Definition no_credential (w : world) : Prop :=
  env_api_key w = None \/ env_api_key w = Some [].

(** What a record shows when no LLM result went into it. *)
Definition regex_only (f : written_file) : Prop :=
  confidence (meta (file_record f)) = 1 # 2
  /\ doc_type (meta (file_record f)) = cps "overview"
  /\ claude_cost_usd (meta (file_record f)) = 0 # 1.

(** A world without credential whose only document has the given pages. *)
Definition offline_world (pages : list page) (now : str) : world :=
  mk_world (fun _ => true) (fun p => p) (fun _ => Some pages) None None now.

(** One page: a heading and two hundred and fifty letters of body text. *)
Definition engine_manual : list page :=
  [mk_page (Some (cps "ENGINE MANAGEMENT SYSTEM
" ++ repeat 97%N 250)) []].

(** The two identifiers of a written record. *)
Definition identifiers (f : written_file) : str * str :=
  (source_id (file_record f), file_name f).

(** [f] was written for one of [sections]: its name carries the hash of
    that section's content, its record the matching source identifier. *)
Definition named_by (v : vehicle) (sections : list section) (f : written_file) : Prop :=
  exists s idx h,
    In s sections
    /\ content_hash (sec_content s) = Some h
    /\ file_name f = output_filename v idx h
    /\ source_id (file_record f) = make_source_id v idx.

Definition is_hex (c : char) : bool := within 48 57 c || within 97 102 c.

Definition is_byte (b : Z) : Prop := (0 <= b < 256)%Z.

(** A one-page scan without text layer. *)
Definition blank_scan : list page := [mk_page None []].

Definition flag_names : list string := ["--make"; "--model"; "--year"; "--max-pages"].

Definition is_flag (a : str) : bool :=
  existsb (fun f => str_eqb a (cps f)) flag_names.

(** The value a flag governs in the parser state. *)
Definition field_of (f : str) (st : vehicle * Z) : str + Z :=
  if str_eqb f (cps "--make") then inl (make (fst st))
  else if str_eqb f (cps "--model") then inl (model (fst st))
  else if str_eqb f (cps "--year") then inr (year (fst st))
  else inr (snd st).

(** Argument lists made of complete flag/value pairs (with integer values
    where an integer is expected) and of tokens that are no flags. *)
Inductive well_formed : list str -> Prop :=
| wf_nil : well_formed []
| wf_make (v : str) (rest : list str) :
    well_formed rest -> well_formed (cps "--make" :: v :: rest)
| wf_model (v : str) (rest : list str) :
    well_formed rest -> well_formed (cps "--model" :: v :: rest)
| wf_year (v : str) (y : Z) (rest : list str) :
    parse_int v = Some y -> well_formed rest -> well_formed (cps "--year" :: v :: rest)
| wf_max_pages (v : str) (n : Z) (rest : list str) :
    parse_int v = Some n -> well_formed rest ->
    well_formed (cps "--max-pages" :: v :: rest)
| wf_other (t : str) (rest : list str) :
    is_flag t = false -> well_formed rest -> well_formed (t :: rest).

(** The tables of page number [i] (1-based) of a document. *)
Definition tables_at (pages : list page) (i : Z) : list table :=
  match nth_error pages (Z.to_nat (i - 1)) with
  | Some p => page_tables p
  | None => []
  end.

(** [count] consecutive page numbers from [first]. *)
Definition page_run (first count : nat) : list Z := map Z.of_nat (List.seq first count).

(** The heading of a page agrees with a section title: none, or that title. *)
Definition heading_agrees (heading : option str) (title : str) : Prop :=
  heading = None \/ heading = Some title.

(** A section as the page loop builds it: its text and tables are those of
    its pages, its pages are consecutive, every page agrees with its title,
    and a title other than the default is the heading of its first page. *)
Record built_from (txt : Z -> str) (tbl : Z -> list table) (g : section) : Prop :=
  mk_built {
    built_content : sec_content g = flat_map (fun i => txt i ++ [10%N]) (sec_pages g);
    built_tables : sec_tables g = flat_map tbl (sec_pages g);
    built_run : exists first count,
        sec_pages g = page_run first count /\ (1 <= first)%nat;
    built_agree : Forall (fun i => heading_agrees (detect_heading (txt i)) (sec_title g))
                         (sec_pages g);
    built_title : sec_title g = cps "Introduction"
                  \/ exists i rest, sec_pages g = i :: rest
                                    /\ detect_heading (txt i) = Some (sec_title g);
    built_named : sec_title g <> []
  }.

(** State of the page loop after [n] pages, for [built_from]: the open
    section ends at page [n]. *)
Definition loop_built (txt : Z -> str) (tbl : Z -> list table) (n : nat)
           (st : list section * section) : Prop :=
  Forall (built_from txt tbl) (fst st)
  /\ Forall (fun g => kept g = true) (fst st)
  /\ built_from txt tbl (snd st)
  /\ exists first count,
      sec_pages (snd st) = page_run first count /\ (first + count = S n)%nat.

(** The section a page extends. *)
Definition extend (g : section) (page_num : Z) (p : page) : section :=
  mk_section (sec_title g) (sec_content g ++ text_of p ++ [10%N])
             (sec_pages g ++ [page_num]) (sec_tables g ++ page_tables p).

(** The phrases of [SKIP_PATTERNS], word by word. *)
Definition skip_phrases : list (list string) :=
  [["table"; "of"; "contents"]; ["index"]; ["copyright"]; ["disclaimer"];
   ["foreword"]; ["preface"]; ["how"; "to"; "use"]].

Definition all_space (ws : str) : Prop := Forall (fun c => isspace c = true) ws.

(** [t] spells the words of a phrase in any letter case, with whitespace
    between consecutive words. *)
Inductive spells : list string -> str -> Prop :=
| spells_word (kw : string) (w : str) :
    map fold_case w = cps kw -> spells [kw] w
| spells_words (kw : string) (kws : list string) (w sp t : str) :
    map fold_case w = cps kw -> sp <> [] -> all_space sp -> spells kws t ->
    spells (kw :: kws) (w ++ sp ++ t).


(** A connector designator: a capital letter and one to four digits. *)
Definition is_connector (m : str) : bool :=
  match m with
  | c :: ds =>
      upper_AZ c && forallb digit_09 ds
      && (1 <=? length ds)%nat && (length ds <=? 4)%nat
  | [] => false
  end.


(** Stage 3 inside the section loop: the optional LLM call and its
    bookkeeping on the run so far. *)
Definition llm_stage (cl : option client) (v : vehicle) (s : section) (acc : run)
  : option claude_result * run :=
  let ner := regex_ner (sec_content s) in
  match cl with
  | Some c =>
      if (200 <? length (strip (sec_content s)))%nat then
        let cr := claude_extract c (sec_title s) (sec_content s) v ner in
        let sent := llm_requests acc
                    ++ [claude_prompt (sec_title s) (sec_content s) v ner] in
        match cr with
        | Some r =>
            (cr, mk_run (raised acc) (files acc) sent
                        (S (total_claude_calls acc))
                        (total_cost acc + cr_cost_usd r))
        | None =>
            (cr, mk_run (raised acc) (files acc) sent
                        (total_claude_calls acc) (total_cost acc))
        end
      else (None, acc)
  | None => (None, acc)
  end.

(** The file written for section [s] at index [idx]. *)
Definition section_file (v : vehicle) (pdf_path output_dir now : str) (idx : Z)
           (s : section) (cr : option claude_result) (h : str) : written_file :=
  mk_written (path_join output_dir (output_filename v idx h))
             (output_filename v idx h)
             (build_output s idx v (regex_ner (sec_content s)) cr pdf_path now).

Definition add_file (acc : run) (f : written_file) : run :=
  mk_run (raised acc) (files acc ++ [f]) (llm_requests acc)
         (total_claude_calls acc) (total_cost acc).

Definition raise (acc : run) : run :=
  mk_run true (files acc) (llm_requests acc) (total_claude_calls acc) (total_cost acc).

(** The request sent for a section, and when it is sent. *)
Definition request_of (v : vehicle) (s : section) : str :=
  claude_prompt (sec_title s) (sec_content s) v (regex_ner (sec_content s)).

Definition long_section (s : section) : bool :=
  (200 <? length (strip (sec_content s)))%nat.

Definition cost_of (f : written_file) : Q := claude_cost_usd (meta (file_record f)).

(** Sum of the costs recorded in the files of a run. *)
Definition sum_costs (fs : list written_file) : Q :=
  fold_right (fun f a => (cost_of f + a)%Q) 0%Q fs.


(** The vehicle a run works with. *)
Definition run_vehicle (w : world) (pdf_path : str) (vehicle_override : option vehicle)
  : vehicle :=
  match vehicle_override with
  | Some v => v
  | None => detect_vehicle_from_filename (abspath w pdf_path)
  end.

(** File [f] was written for the section at position [i] of [sections]. *)
Definition written_for (v : vehicle) (sections : list section) (f : written_file)
           (i : Z) : Prop :=
  exists s h,
    (0 <= i)%Z
    /\ nth_error sections (Z.to_nat i) = Some s
    /\ should_skip_section (sec_title s) (sec_content s) = false
    /\ content_hash (sec_content s) = Some h
    /\ file_name f = output_filename v i h
    /\ source_id (file_record f) = make_source_id v i
    /\ rec_title (file_record f) = sec_title s
    /\ content (file_record f) = firstn (Z.to_nat 10000) (sec_content s).

(** The files of a run follow the sections at ascending positions. *)
Definition files_follow (v : vehicle) (sections : list section)
           (fs : list written_file) (idxs : list Z) : Prop :=
  Forall2 (written_for v sections) fs idxs /\ Sorted.StronglySorted Z.lt idxs.


Definition not_skipped (s : section) : bool :=
  negb (should_skip_section (sec_title s) (sec_content s)).

(** A world with a credential and the given client, whose only document
    has the given pages. *)
Definition online_world (pages : list page) (c : client) : world :=
  mk_world (fun _ => true) (fun p => p) (fun _ => Some pages)
           (Some (cps "sk-test")) (Some c) (cps "2024-05-01T10:00:00Z").


Definition wiring_reply : reply :=
  mk_reply (mk_llm_json (Some (cps "Electrical")) (Some (cps "Engine control"))
                        (Some (cps "wiring"))
                        (Some [mk_component (cps "ECU") (cps "ecu") (cps "89661-12345")])
                        None None (Some (17 # 20)))
           1000 500.

Definition answering_client : client := fun _ => Some wiring_reply.

(** The sections that go to the LLM service when a client is set up. *)
Definition sent_to_llm (s : section) : bool := not_skipped s && long_section s.

(* ================================================================== *)
(** ** Properties *)
(* ================================================================== *)

(** *** Skip rules *)

(** C6 (skip monotonicity): a section whose content, stripped of
    surrounding whitespace, is shorter than 200 characters is skipped,
    whatever its title and whatever entities its text contains. *)
Theorem skip_short_content :
  forall title content : str,
    (length (strip content) < 200)%nat ->
    should_skip_section title content = true.
Proof.
  intros title content Hlen.
  unfold should_skip_section.
  destruct (matches SKIP_PATTERNS title); [reflexivity|].
  apply Nat.ltb_lt in Hlen.
  now rewrite Hlen.
Qed.

Lemma skip_short_content_witness :
  should_skip_section (cps "Engine Mechanical") (cps "  12V relay C1  ") = true.
Proof.
  apply skip_short_content.
  vm_compute. lia.
Defined.





(** In binary64 the two boundary contents are judged as in the exact
    model: 60/200 rounds to the double of the literal [0.3]. *)
Example alpha_boundary_binary64 :
  Binary64.alpha_test 60 200 = Qlt_bool (alpha_ratio ratio_30_content) (3 # 10)
  /\ Binary64.alpha_test 58 200 = Qlt_bool (alpha_ratio ratio_29_content) (3 # 10).
Proof. vm_compute. split; reflexivity. Qed.

(** *** Cost *)

(** In binary64, 1000 and 500 tokens cost the double nearest to 0.0105,
    which rounding to six decimals returns as it is. *)
Example cost_1000_500_binary64 :
  PrimFloat.eqb (Binary64.cost 1000 500) Binary64.cost_0_0105 = true.
Proof. vm_compute. reflexivity. Qed.



(** *** Entity bundle *)

Lemma list_set_dedup (raw : list str) : dedup_of raw (list_set raw).
Proof.
  split.
  - apply NoDup_nodup.
  - intros x. apply nodup_In.
Qed.

Lemma list_set_length (raw : list str) : (length (list_set raw) <= length raw)%nat.
Proof.
  unfold list_set.
  induction raw as [|x raw IH]; simpl; [lia|].
  destruct (in_dec str_dec x raw); simpl; lia.
Qed.

(** Scenario B of the specification. *)
Example regex_ner_scenario_B :
  let ner := regex_ner (cps "Check 12V at part 1234-5678A") in
  dict_get "voltages" ner = Some [cps "12V"]
  /\ dict_get "part_numbers" ner = Some [cps "1234-5678A"].
Proof. vm_compute. split; reflexivity. Qed.

(** Twenty occurrences of one designator exhaust the cap: a later, distinct
    designator is lost, which deduplicating first would have kept. *)
Example connector_cap_precedes_dedup :
  let text := concat (repeat (cps "C1 ") 20) ++ cps "D2" in
  dict_get "connectors" (regex_ner text) = Some [cps "C1"]
  /\ firstn 20 (list_set (findall RE_CONNECTOR text)) = [cps "C1"; cps "D2"].
Proof. vm_compute. split; reflexivity. Qed.

(** C9 (connector cap, then dedup): the connector category holds the
    distinct strings among the first 20 raw connector matches in text
    order, at most 20 of them; every other category holds the distinct
    strings among all of its matches. *)
Theorem connector_cap_then_dedup :
  forall text : str,
    (exists l, dict_get "connectors" (regex_ner text) = Some l
               /\ dedup_of (firstn 20 (findall RE_CONNECTOR text)) l
               /\ (length l <= 20)%nat)
    /\ Forall (fun kp =>
                 exists l, dict_get (fst kp) (regex_ner text) = Some l
                           /\ dedup_of (findall (snd kp) text) l)
              uncapped_categories.
Proof.
  intros text. split.
  - exists (list_set (firstn 20 (findall RE_CONNECTOR text))).
    split; [reflexivity|]. split; [apply list_set_dedup|].
    eapply Nat.le_trans; [apply list_set_length|].
    rewrite length_firstn. apply Nat.le_min_l.
  - unfold uncapped_categories.
    repeat (apply Forall_cons;
            [eexists; split; [reflexivity | apply list_set_dedup]|]).
    apply Forall_nil.
Qed.

(** *** Heading detection *)







(** *** Segmentation *)

Lemma nonempty_rev (s : str) : nonempty (rev s) = nonempty s.
Proof.
  destruct s as [|c r]; [reflexivity|].
  simpl. destruct (rev r); reflexivity.
Qed.

Lemma existsb_rev (f : char -> bool) (s : str) : existsb f (rev s) = existsb f s.
Proof.
  induction s as [|c r IH]; [reflexivity|].
  simpl. rewrite existsb_app, IH. simpl.
  rewrite orb_false_r. apply orb_comm.
Qed.

Lemma nonempty_lstrip (s : str) : nonempty (lstrip s) = existsb nonspace s.
Proof.
  induction s as [|c r IH]; [reflexivity|].
  simpl. unfold nonspace at 1. destruct (isspace c); simpl; [exact IH|reflexivity].
Qed.

Lemma existsb_lstrip (s : str) : existsb nonspace (lstrip s) = existsb nonspace s.
Proof.
  induction s as [|c r IH]; [reflexivity|].
  simpl. unfold nonspace at 2. destruct (isspace c) eqn:E; simpl; [exact IH|].
  unfold nonspace. now rewrite E.
Qed.

(** A string is non-blank exactly when it has a non-whitespace character. *)
Lemma nonblank_existsb (s : str) : nonblank s = existsb nonspace s.
Proof.
  unfold nonblank, strip, rstrip.
  rewrite nonempty_rev, nonempty_lstrip, existsb_rev.
  apply existsb_lstrip.
Qed.

Lemma nonblank_app (a b : str) : nonblank (a ++ b) = nonblank a || nonblank b.
Proof. rewrite !nonblank_existsb. apply existsb_app. Qed.

Section Segmentation.
(** The text of each page, by page number. *)
Variable txt : Z -> str.

Lemma page_numbers_succ (n : nat) :
  page_numbers (S n) = page_numbers n ++ [Z.of_nat n + 1]%Z.
Proof.
  unfold page_numbers. rewrite seq_S, map_app. simpl.
  do 2 f_equal. lia.
Qed.

Lemma all_pages_app (a b : list section) :
  all_pages (a ++ b) = all_pages a ++ all_pages b.
Proof. unfold all_pages. now rewrite map_app, concat_app. Qed.

Lemma carries_text_extend (g : section) (t : str) (tables : list table) (i : Z) :
  carries_text txt g ->
  txt i = t ->
  carries_text txt (mk_section (sec_title g) (sec_content g ++ t ++ [10%N])
                           (sec_pages g ++ [i]) (sec_tables g ++ tables)).
Proof.
  intros Hg Ht j Hin Hnb. unfold kept. simpl in *.
  rewrite !nonblank_app. apply in_app_or in Hin.
  destruct Hin as [Hin|[<-|[]]].
  - specialize (Hg j Hin Hnb). unfold kept in Hg. now rewrite Hg.
  - rewrite <- Ht, Hnb. apply orb_true_iff. right. reflexivity.
Qed.

Lemma page_step_inv (n : nat) (st : list section * section) (p : page) :
  txt (Z.of_nat n + 1) = text_of p ->
  loop_inv txt n st ->
  loop_inv txt (S n) (page_step st (Z.of_nat n + 1) p).
Proof.
  intros Ht (groups & Hsecs & Hpages & Hall & Hcur).
  destruct st as [secs cur]. simpl in Hsecs, Hpages, Hcur.
  unfold page_step. fold (text_of p).
  set (closing := match detect_heading (text_of p) with
                  | Some h => nonempty h && negb (str_eqb h (sec_title cur))
                  | None => false
                  end).
  assert (Hcase :
    match detect_heading (text_of p) with
    | Some heading =>
        if nonempty heading && negb (str_eqb heading (sec_title cur))
        then (if nonempty (strip (sec_content cur)) then secs ++ [cur] else secs,
              new_section heading)
        else (secs, cur)
    | None => (secs, cur)
    end
    = if closing
      then (filter kept (groups ++ [cur]),
            new_section (match detect_heading (text_of p) with
                         | Some h => h | None => [] end))
      else (secs, cur)).
  { unfold closing. destruct (detect_heading (text_of p)) as [h|]; [|reflexivity].
    destruct (nonempty h && negb (str_eqb h (sec_title cur))); [|reflexivity].
    rewrite filter_app, <- Hsecs. simpl. unfold kept, nonblank.
    destruct (nonempty (strip (sec_content cur))); [reflexivity|].
    now rewrite app_nil_r. }
  rewrite Hcase. clear Hcase.
  destruct closing.
  - exists (groups ++ [cur]). simpl. repeat split.
    + rewrite all_pages_app. unfold all_pages at 2. simpl.
      rewrite app_nil_r, Hpages. symmetry. apply page_numbers_succ.
    + apply Forall_app. split; [exact Hall|]. now constructor.
    + apply (@carries_text_extend (new_section _) (text_of p) (page_tables p)
               (Z.of_nat n + 1)%Z); [|exact Ht].
      intros j [].
  - exists groups. simpl. repeat split.
    + exact Hsecs.
    + rewrite app_assoc, Hpages. symmetry. apply page_numbers_succ.
    + exact Hall.
    + now apply carries_text_extend.
Qed.

Lemma page_loop_inv (ps : list page) :
  forall (n : nat) (st : list section * section),
    (forall k p, nth_error ps k = Some p ->
                 txt (Z.of_nat (n + k) + 1) = text_of p) ->
    loop_inv txt n st ->
    loop_inv txt (n + length ps) (page_loop st (Z.of_nat n) ps).
Proof.
  induction ps as [|p ps IH]; intros n st Ht Hinv.
  - simpl. now rewrite Nat.add_0_r.
  - simpl. replace (n + S (length ps))%nat with (S n + length ps)%nat by lia.
    replace (Z.of_nat n + 1)%Z with (Z.of_nat (S n)) at 2 by lia.
    apply IH.
    + intros k q Hk. replace (S n + k)%nat with (n + S k)%nat by lia.
      now apply Ht.
    + apply page_step_inv; [|exact Hinv].
      specialize (Ht 0%nat p eq_refl). now rewrite Nat.add_0_r in Ht.
Qed.
End Segmentation.


Lemma pages_processed_le (pages : list page) (max_pages : Z) :
  (pages_processed pages max_pages <= length pages)%nat.
Proof. unfold pages_processed. lia. Qed.

Lemma filter_kept_snoc (groups : list section) (cur : section) :
  filter kept (groups ++ [cur])
  = if nonempty (strip (sec_content cur))
    then filter kept groups ++ [cur] else filter kept groups.
Proof.
  rewrite filter_app. simpl. unfold kept at 2, nonblank.
  destruct (nonempty (strip (sec_content cur))); [reflexivity|apply app_nil_r].
Qed.

(** The produced sections are the non-blank ones among groups of pages that
    split the processed page numbers in order. *)
Lemma extract_sections_partition (pages : list page) (max_pages : Z) :
  exists groups,
    all_pages groups = page_numbers (pages_processed pages max_pages)
    /\ extract_sections pages max_pages = filter kept groups
    /\ Forall (carries_text (page_text_at pages)) groups.
Proof.
  unfold extract_sections.
  set (n := pages_processed pages max_pages).
  set (st0 := ([], new_section (cps "Introduction"))).
  assert (Hlen : length (firstn n pages) = n).
  { rewrite length_firstn. pose proof (pages_processed_le pages max_pages). lia. }
  assert (Hinv : loop_inv (page_text_at pages) (0 + length (firstn n pages))
                   (page_loop st0 (Z.of_nat 0) (firstn n pages))).
  { apply page_loop_inv.
    - intros k p Hk. unfold page_text_at.
      replace (Z.to_nat (Z.of_nat (0 + k) + 1 - 1)) with k by lia.
      rewrite nth_error_firstn in Hk.
      destruct (k <? n)%nat; [|discriminate]. now rewrite Hk.
    - exists []. repeat split; [constructor|intros i []]. }
  rewrite Hlen, Nat.add_0_l in Hinv. change (Z.of_nat 0) with 0%Z in Hinv.
  destruct (page_loop st0 0 (firstn n pages)) as [secs cur].
  destruct Hinv as (groups & Hsecs & Hpages & Hall & Hcur).
  simpl in Hsecs, Hpages, Hcur.
  exists (groups ++ [cur]). repeat split.
  - rewrite all_pages_app. unfold all_pages at 2. simpl.
    now rewrite app_nil_r.
  - rewrite filter_kept_snoc, <- Hsecs. reflexivity.
  - apply Forall_app. split; [exact Hall|]. now constructor.
Qed.

Lemma count_occ_all_pages_filter (f : section -> bool) (groups : list section) (i : Z) :
  (count_occ Z.eq_dec (all_pages (filter f groups)) i
   <= count_occ Z.eq_dec (all_pages groups) i)%nat.
Proof.
  induction groups as [|g gs IH]; [reflexivity|].
  unfold all_pages in *. simpl.
  destruct (f g); simpl; rewrite ?count_occ_app; lia.
Qed.

Lemma NoDup_page_numbers (n : nat) : NoDup (page_numbers n).
Proof.
  unfold page_numbers. apply NoDup_map_inv with (f := Z.to_nat).
  rewrite map_map. erewrite map_ext; [rewrite map_id; apply seq_NoDup|].
  intros a. apply Nat2Z.id.
Qed.

Lemma In_page_numbers (n : nat) (i : Z) :
  In i (page_numbers n) <-> (1 <= i <= Z.of_nat n)%Z.
Proof.
  unfold page_numbers. rewrite in_map_iff. split.
  - intros (k & <- & Hk). apply in_seq in Hk. lia.
  - intros H. exists (Z.to_nat i). split; [lia|]. apply in_seq. lia.
Qed.


(** Scenario A of the specification: a heading line and a long body on
    page 1 give one section, title-cased, spanning page 1. *)
Example extract_sections_scenario_A :
  map (fun s => (sec_title s, sec_pages s)) (extract_sections engine_manual 0)
  = [(cps "Engine Management System", [1%Z])].
Proof. vm_compute. reflexivity. Qed.




(** *** Regex-only runs *)

Lemma setup_client_no_credential (w : world) :
  no_credential w -> setup_client w = None.
Proof. unfold setup_client. now intros [-> | ->]. Qed.

Lemma process_sections_offline (v : vehicle) (pdf_path output_dir now : str)
      (sections : list section) :
  forall (idx : Z) (acc : run),
    llm_requests acc = [] ->
    Forall regex_only (files acc) ->
    let r := process_sections None v pdf_path output_dir now idx sections acc in
    llm_requests r = [] /\ Forall regex_only (files r).
Proof.
  induction sections as [|s rest IH]; intros idx acc Hreq Hfiles; [now split|].
  simpl.
  destruct (should_skip_section (sec_title s) (sec_content s)); [now apply IH|].
  destruct (content_hash (sec_content s)) as [h|]; [|now split].
  apply IH; [exact Hreq|]. simpl.
  apply Forall_app. split; [exact Hfiles|].
  constructor; [|constructor]. repeat split.
Qed.

(** C4 (regex-only fallback): in a run without API credential no request
    is sent to the LLM service, and every record written has confidence
    0.5, document type "overview" and cost 0.0. *)
Theorem regex_only_fallback :
  forall (w : world) (pdf_path output_dir : str)
         (vehicle_override : option vehicle) (max_pages : Z),
    no_credential w ->
    let r := process_pdf w pdf_path output_dir vehicle_override max_pages in
    llm_requests r = [] /\ Forall regex_only (files r).
Proof.
  intros w pdf_path output_dir vo max_pages Hcred. unfold process_pdf.
  rewrite (setup_client_no_credential Hcred).
  destruct (open_pdf w (abspath w pdf_path)) as [pages|]; [|now split].
  destruct (extract_sections pages max_pages) as [|s rest]; [now split|].
  apply process_sections_offline; [reflexivity|constructor].
Qed.

Lemma regex_only_fallback_witness :
  let r := process_pdf (offline_world engine_manual (cps "2024-05-01T10:00:00Z"))
                       (cps "/manuals/toyota-camry-2015.pdf") (cps "out") None 0 in
  llm_requests r = [] /\ Forall regex_only (files r).
Proof.
  apply regex_only_fallback.
  left. reflexivity.
Defined.

(** The witness run does write a record. *)
Example offline_run_writes_one_file :
  let r := process_pdf (offline_world engine_manual (cps "2024-05-01T10:00:00Z"))
                       (cps "/manuals/toyota-camry-2015.pdf") (cps "out") None 0 in
  map file_path (files r)
  = [cps "out/manual-toyota-camry-2015-s000-14b60a82.json"]
  /\ map (fun f => source_id (file_record f)) (files r)
     = [cps "manual:toyota-camry-2015:section-0"].
Proof. vm_compute. split; reflexivity. Qed.

(** *** Identifiers *)

Lemma bytes_le_bytes (x : Z) : Forall is_byte (bytes_le x).
Proof.
  unfold bytes_le, is_byte.
  repeat constructor;
    try (change 0xFF%Z with (Z.ones 8); rewrite Z.land_ones by lia;
         apply Z.mod_pos_bound; lia).
Qed.

Lemma md5_bytes (msg : list Z) : Forall is_byte (md5 msg) /\ length (md5 msg) = 16%nat.
Proof.
  unfold md5.
  destruct (md5_blocks _ _ _) as [[[a b] c] d].
  split; [|reflexivity].
  repeat (apply Forall_app; split); apply bytes_le_bytes.
Qed.

Lemma hex_digit_is_hex (n : Z) : (0 <= n < 16)%Z -> is_hex (hex_digit n) = true.
Proof.
  intros H.
  assert (E : In n [0; 1; 2; 3; 4; 5; 6; 7; 8; 9; 10; 11; 12; 13; 14; 15]%Z)
    by (simpl; lia).
  repeat (destruct E as [<- | E]; [reflexivity|]). destruct E.
Qed.

Lemma hexdigest_shape (bs : list Z) :
  Forall is_byte bs ->
  length (hexdigest bs) = (2 * length bs)%nat /\ forallb is_hex (hexdigest bs) = true.
Proof.
  induction 1 as [|b bs Hb _ [IHlen IHhex]]; [now split|].
  unfold hexdigest in *. simpl. split; [rewrite IHlen; lia|].
  unfold is_byte in Hb.
  rewrite IHhex, !hex_digit_is_hex; [reflexivity| |].
  - change 0xF%Z with (Z.ones 4). rewrite Z.land_ones by lia.
    apply Z.mod_pos_bound. lia.
  - rewrite Z.shiftr_div_pow2 by lia. change (2 ^ 4)%Z with 16%Z.
    split; [apply Z.div_pos; lia|apply Z.div_lt_upper_bound; lia].
Qed.

Lemma forallb_firstn (A : Type) (f : A -> bool) (n : nat) (l : list A) :
  forallb f l = true -> forallb f (firstn n l) = true.
Proof.
  revert n. induction l as [|x l IH]; intros [|n] H; try reflexivity.
  simpl in *. apply andb_true_iff in H. destruct H as [-> H]. now apply IH.
Qed.

(** The filename hash is eight lower-case hexadecimal characters. *)
Lemma content_hash_shape (c h : str) :
  content_hash c = Some h -> length h = 8%nat /\ forallb is_hex h = true.
Proof.
  unfold content_hash. destruct (encode (firstn 500 c)) as [bytes|]; [|discriminate].
  unfold option_map. intros H.
  assert (E : h = firstn 8 (hexdigest (md5 bytes))) by congruence.
  rewrite E. clear H E.
  destruct (md5_bytes bytes) as [Hb Hl].
  destruct (hexdigest_shape Hb) as [Hlen Hhex].
  split; [|now apply forallb_firstn].
  rewrite length_firstn, Hlen, Hl. reflexivity.
Qed.

(** The identifiers a run writes depend on the vehicle and the sections
    only: not on the client, the directory, the path or the clock. *)
Lemma process_sections_identifiers (v : vehicle) (sections : list section) :
  forall (cl1 cl2 : option client) (pdf1 pdf2 out1 out2 now1 now2 : str)
         (idx : Z) (acc1 acc2 : run),
    map identifiers (files acc1) = map identifiers (files acc2) ->
    map identifiers (files (process_sections cl1 v pdf1 out1 now1 idx sections acc1))
    = map identifiers (files (process_sections cl2 v pdf2 out2 now2 idx sections acc2)).
Proof.
  induction sections as [|s rest IH];
    intros cl1 cl2 pdf1 pdf2 out1 out2 now1 now2 idx acc1 acc2 Hacc; [exact Hacc|].
  simpl.
  destruct (should_skip_section (sec_title s) (sec_content s)); [now apply IH|].
  set (ner := regex_ner (sec_content s)).
  set (big := (200 <? length (strip (sec_content s)))%nat).
  destruct (content_hash (sec_content s)) as [h|].
  - destruct cl1 as [c1|], cl2 as [c2|]; try destruct big;
      try destruct (claude_extract c1 _ _ _ _);
      try destruct (claude_extract c2 _ _ _ _);
      apply IH; simpl; rewrite !map_app; simpl; now rewrite Hacc.
  - destruct cl1 as [c1|], cl2 as [c2|]; try destruct big;
      try destruct (claude_extract c1 _ _ _ _);
      try destruct (claude_extract c2 _ _ _ _);
      simpl; exact Hacc.
Qed.

(** Every file of a run is named after the hash of a section's content. *)
Lemma process_sections_named (cl : option client) (v : vehicle)
      (pdf_path output_dir now : str) (all sections : list section) :
  incl sections all ->
  forall (idx : Z) (acc : run),
    Forall (named_by v all) (files acc) ->
    Forall (named_by v all)
           (files (process_sections cl v pdf_path output_dir now idx sections acc)).
Proof.
  induction sections as [|s rest IH]; intros Hincl idx acc Hacc; [exact Hacc|].
  assert (Hs : In s all) by (apply Hincl; now left).
  assert (Hrest : incl rest all) by (intros x Hx; apply Hincl; now right).
  simpl.
  destruct (should_skip_section (sec_title s) (sec_content s)); [now apply IH|].
  set (ner := regex_ner (sec_content s)).
  set (big := (200 <? length (strip (sec_content s)))%nat).
  destruct (content_hash (sec_content s)) as [h|] eqn:Hh.
  - destruct cl as [c|]; try destruct big; try destruct (claude_extract c _ _ _ _);
      (apply IH; [exact Hrest|]); simpl;
      (apply Forall_app; split; [exact Hacc|]);
      (constructor; [|constructor]); exists s, idx, h; now repeat split.
  - destruct cl as [c|]; try destruct big; try destruct (claude_extract c _ _ _ _);
      simpl; exact Hacc.
Qed.

(** C8 (identifier determinism): two runs on the same document with the
    same vehicle metadata, both without LLM stage, write records with the
    same source identifiers under the same file names, whatever the clock
    and the output directory; the hash in a file name is computed from the
    first 500 characters of the section text and has eight hexadecimal
    characters. *)
Theorem identifier_determinism :
  forall (w1 w2 : world) (pdf_path out1 out2 : str)
         (vehicle_override : option vehicle) (max_pages : Z),
    abspath w1 pdf_path = abspath w2 pdf_path ->
    open_pdf w1 (abspath w1 pdf_path) = open_pdf w2 (abspath w2 pdf_path) ->
    no_credential w1 ->
    no_credential w2 ->
    map identifiers (files (process_pdf w1 pdf_path out1 vehicle_override max_pages))
    = map identifiers (files (process_pdf w2 pdf_path out2 vehicle_override max_pages))
    /\ (forall c, content_hash c = content_hash (firstn 500 c))
    /\ (forall c, match content_hash c with
                  | Some h => length h = 8%nat /\ forallb is_hex h = true
                  | None => True
                  end).
Proof.
  intros w1 w2 pdf_path out1 out2 vo max_pages Hpath Hdoc Hc1 Hc2.
  split; [|split].
  - unfold process_pdf. rewrite <- Hdoc, <- Hpath.
    destruct (open_pdf w1 (abspath w1 pdf_path)) as [pages|]; [|reflexivity].
    destruct (extract_sections pages max_pages) as [|s rest]; [reflexivity|].
    now apply process_sections_identifiers.
  - intros c. unfold content_hash. now rewrite firstn_firstn, Nat.min_id.
  - intros c. destruct (content_hash c) as [h|] eqn:E; [|exact I].
    exact (content_hash_shape _ E).
Qed.

Lemma identifier_determinism_witness :
  map identifiers
      (files (process_pdf (offline_world engine_manual (cps "2024-05-01T10:00:00Z"))
                          (cps "/manuals/toyota-camry-2015.pdf") (cps "out") None 0))
  = map identifiers
        (files (process_pdf (offline_world engine_manual (cps "2025-11-30T23:59:59Z"))
                            (cps "/manuals/toyota-camry-2015.pdf") (cps "/tmp/again")
                            None 0)).
Proof.
  apply (proj1 (@identifier_determinism
                  (offline_world engine_manual (cps "2024-05-01T10:00:00Z"))
                  (offline_world engine_manual (cps "2025-11-30T23:59:59Z"))
                  (cps "/manuals/toyota-camry-2015.pdf") (cps "out") (cps "/tmp/again")
                  None 0%Z eq_refl eq_refl (or_introl eq_refl) (or_introl eq_refl))).
Defined.

(** *** Exit status *)

(** C2 (empty segmentation), as the code has it: a run that reaches
    segmentation and finds no section writes no output file and ends with
    exit status 0, not 1: [process_pdf] logs the error and returns, and
    [main] falls off its end. *)
Theorem empty_segmentation_exit_status :
  forall (w : world) (prog pdf_path output_dir : str) (args : list str)
         (vehicle_override : option vehicle) (max_pages : Z) (pages : list page),
    path_exists w pdf_path = true ->
    parse_overrides pdf_path args = Some (vehicle_override, max_pages) ->
    open_pdf w (abspath w pdf_path) = Some pages ->
    extract_sections pages max_pages = [] ->
    main w (prog :: pdf_path :: output_dir :: args) = mk_exit 0 empty_run.
Proof.
  intros w prog pdf_path output_dir args vo max_pages pages Hex Hargs Hopen Hsecs.
  unfold main. rewrite Hex, Hargs. simpl.
  unfold process_pdf. now rewrite Hopen, Hsecs.
Qed.

Lemma empty_segmentation_exit_status_witness :
  main (offline_world blank_scan (cps "2024-05-01T10:00:00Z"))
       [cps "manual_worker.py"; cps "scan.pdf"; cps "out"]
  = mk_exit 0 empty_run.
Proof.
  apply (@empty_segmentation_exit_status _ _ _ _ [] None 0%Z blank_scan);
    reflexivity.
Defined.

(** *** Command line *)

Lemma str_eqb_eq (a b : str) : str_eqb a b = true <-> a = b.
Proof.
  revert b. induction a as [|x a IH]; intros [|y b]; simpl; split;
    try reflexivity; try discriminate.
  - intros H. apply andb_true_iff in H. destruct H as [Hx Hab].
    apply N.eqb_eq in Hx. apply IH in Hab. now subst.
  - intros [= -> ->]. rewrite N.eqb_refl. now apply IH.
Qed.

Lemma is_flag_false (t : str) :
  is_flag t = false ->
  str_eqb t (cps "--make") = false /\ str_eqb t (cps "--model") = false
  /\ str_eqb t (cps "--year") = false /\ str_eqb t (cps "--max-pages") = false.
Proof.
  unfold is_flag, flag_names. cbn [existsb].
  rewrite !orb_false_iff. tauto.
Qed.

(** One iteration of the loop, when two arguments remain. *)
Lemma parse_loop_step (st : vehicle * Z) (a b : str) (rest : list str) :
  parse_loop st (a :: b :: rest)
  = if str_eqb a (cps "--make")
    then parse_loop (mk_vehicle b (model (fst st)) (year (fst st)), snd st) rest
    else if str_eqb a (cps "--model")
    then parse_loop (mk_vehicle (make (fst st)) b (year (fst st)), snd st) rest
    else if str_eqb a (cps "--year")
    then match parse_int b with
         | Some y => parse_loop (mk_vehicle (make (fst st)) (model (fst st)) y, snd st) rest
         | None => None
         end
    else if str_eqb a (cps "--max-pages")
    then match parse_int b with
         | Some n => parse_loop (fst st, n) rest
         | None => None
         end
    else parse_loop st (b :: rest).
Proof. destruct st as [v mp]. reflexivity. Qed.

Lemma parse_loop_other (st : vehicle * Z) (t b : str) (rest : list str) :
  is_flag t = false -> parse_loop st (t :: b :: rest) = parse_loop st (b :: rest).
Proof.
  intros H. apply is_flag_false in H. destruct H as (H1 & H2 & H3 & H4).
  now rewrite parse_loop_step, H1, H2, H3, H4.
Qed.

(** After well-formed arguments a last, single argument is never read. *)
Lemma parse_loop_trailing (pre : list str) :
  well_formed pre ->
  forall (st : vehicle * Z) (a : str),
    parse_loop st (pre ++ [a]) = parse_loop st pre /\ parse_loop st pre <> None.
Proof.
  induction 1 as [|v rest _ IH|v rest _ IH|v y rest Hy _ IH|v n rest Hn _ IH
                  |t rest Ht _ IH]; intros [v0 mp] a.
  - split; [reflexivity|discriminate].
  - exact (IH (mk_vehicle v (model v0) (year v0), mp) a).
  - exact (IH (mk_vehicle (make v0) v (year v0), mp) a).
  - cbn. rewrite Hy. exact (IH (mk_vehicle (make v0) (model v0) y, mp) a).
  - cbn. rewrite Hn. exact (IH (v0, n) a).
  - destruct rest as [|b rest].
    + cbn [app]. rewrite parse_loop_other by exact Ht.
      split; [reflexivity|discriminate].
    + change ((t :: b :: rest) ++ [a]) with (t :: b :: (rest ++ [a])).
      rewrite !parse_loop_other by exact Ht.
      exact (IH (v0, mp) a).
Qed.

Lemma list_ind_pairs (P : list str -> Prop) :
  P [] ->
  (forall a, P [a]) ->
  (forall a b rest, P rest -> P (b :: rest) -> P (a :: b :: rest)) ->
  forall l, P l.
Proof.
  intros H0 H1 H2 l.
  assert (H : P l /\ forall a, P (a :: l)).
  { induction l as [|b rest [IH IH']]; [now split|].
    split; [apply IH'|]. intros a. apply H2; [exact IH|apply IH']. }
  exact (proj1 H).
Qed.

Lemma str_eqb_neq (a b : str) : a <> b -> str_eqb a b = false.
Proof.
  intros H. destruct (str_eqb a b) eqn:E; [|reflexivity].
  apply str_eqb_eq in E. contradiction.
Qed.

(** A flag that does not occur among the arguments leaves its value alone. *)
Lemma parse_loop_keeps (f : str) :
  is_flag f = true ->
  forall (args : list str) (st st' : vehicle * Z),
    ~ In f args ->
    parse_loop st args = Some st' ->
    field_of f st' = field_of f st.
Proof.
  intros Hflag args.
  induction args as [|a|a b rest IHrest IHtail] using list_ind_pairs;
    intros st st' Hnot Hrun.
  - destruct st. now injection Hrun as <-.
  - destruct st. now injection Hrun as <-.
  - assert (Hfa : f <> a) by (intros ->; apply Hnot; now left).
    assert (Hrest : ~ In f rest) by (intros H; apply Hnot; right; now right).
    assert (Htail : ~ In f (b :: rest)) by (intros H; apply Hnot; now right).
    rewrite parse_loop_step in Hrun.
    destruct (str_eqb a (cps "--make")) eqn:E1.
    { apply str_eqb_eq in E1. subst a.
      rewrite (IHrest _ _ Hrest Hrun). unfold field_of.
      now rewrite (str_eqb_neq Hfa). }
    destruct (str_eqb a (cps "--model")) eqn:E2.
    { apply str_eqb_eq in E2. subst a.
      rewrite (IHrest _ _ Hrest Hrun). unfold field_of.
      now rewrite (str_eqb_neq Hfa). }
    destruct (str_eqb a (cps "--year")) eqn:E3.
    { apply str_eqb_eq in E3. subst a.
      destruct (parse_int b) as [y|]; [|discriminate].
      rewrite (IHrest _ _ Hrest Hrun). unfold field_of.
      now rewrite (str_eqb_neq Hfa). }
    destruct (str_eqb a (cps "--max-pages")) eqn:E4.
    { apply str_eqb_eq in E4. subst a.
      destruct (parse_int b) as [n|]; [|discriminate].
      rewrite (IHrest _ _ Hrest Hrun). unfold field_of.
      destruct (str_eqb f (cps "--make")) eqn:F1; [reflexivity|].
      destruct (str_eqb f (cps "--model")) eqn:F2; [reflexivity|].
      destruct (str_eqb f (cps "--year")) eqn:F3; [reflexivity|].
      exfalso. unfold is_flag, flag_names in Hflag. cbn [existsb] in Hflag.
      rewrite F1, F2, F3, (str_eqb_neq Hfa) in Hflag. discriminate. }
    exact (IHtail _ _ Htail Hrun).
Qed.

(** A value-less [--make] after [--year]: the flag is read as the year,
    [int] raises, and the process ends with status 1. *)
Lemma trailing_flag_counterexample :
  let args := [cps "--year"; cps "--make"] in
  is_flag (last args []) = true
  /\ parse_overrides (cps "camry-2015.pdf") args = None
  /\ exit_code (main (offline_world engine_manual (cps "2024-05-01T10:00:00Z"))
                     ([cps "manual_worker.py"; cps "camry-2015.pdf"; cps "out"] ++ args))
     = 1%Z.
Proof. vm_compute. repeat split. Qed.

(** C10, amended (value-less final flag): when the optional arguments before
    a final recognised flag are complete flag/value pairs (with integer
    values for [--year] and [--max-pages]) and tokens that are no flags,
    the final flag is ignored: no error is raised, the overrides are those
    of the arguments before it, and the value the flag governs is the
    filename-derived or default one unless an earlier argument names the
    same flag. *)
Theorem trailing_flag_ignored :
  forall (pdf_path : str) (pre : list str) (f : str),
    well_formed pre ->
    is_flag f = true ->
    let st0 := (detect_vehicle_from_filename pdf_path, 0%Z) in
    exists (v : vehicle) (max_pages : Z),
      parse_loop st0 pre = Some (v, max_pages)
      /\ parse_overrides pdf_path (pre ++ [f]) = Some (Some v, max_pages)
      /\ (In f pre \/ field_of f (v, max_pages) = field_of f st0).
Proof.
  intros pdf_path pre f Hwf Hflag st0.
  destruct (parse_loop_trailing Hwf st0 f) as [Heq Hsome].
  destruct (parse_loop st0 pre) as [[v mp]|] eqn:Hrun; [|contradiction].
  exists v, mp. split; [reflexivity|]. split.
  - unfold parse_overrides. fold st0. rewrite Heq.
    destruct pre; reflexivity.
  - destruct (in_dec str_dec f pre) as [Hin|Hnot]; [now left|right].
    exact (@parse_loop_keeps f Hflag pre st0 (v, mp) Hnot Hrun).
Qed.

Lemma trailing_flag_ignored_witness :
  let st0 := (detect_vehicle_from_filename (cps "/manuals/toyota-camry-2015.pdf"), 0%Z) in
  exists (v : vehicle) (max_pages : Z),
    parse_loop st0 [cps "--make"; cps "Lexus"] = Some (v, max_pages)
    /\ parse_overrides (cps "/manuals/toyota-camry-2015.pdf")
                       ([cps "--make"; cps "Lexus"] ++ [cps "--year"])
       = Some (Some v, max_pages)
    /\ (In (cps "--year") [cps "--make"; cps "Lexus"]
        \/ field_of (cps "--year") (v, max_pages) = field_of (cps "--year") st0).
Proof.
  apply (@trailing_flag_ignored (cps "/manuals/toyota-camry-2015.pdf")
                                [cps "--make"; cps "Lexus"] (cps "--year")).
  - apply wf_make, wf_nil.
  - reflexivity.
Defined.

(** The flag alone is the simplest case: the vehicle is the detected one. *)
Example lone_flag_ignored :
  parse_overrides (cps "/manuals/toyota-camry-2015.pdf") [cps "--max-pages"]
  = Some (Some (mk_vehicle (cps "Toyota") (cps "camry") 2015), 0%Z).
Proof. vm_compute. reflexivity. Qed.

(* ================================================================== *)
(** ** Further properties *)
(* ================================================================== *)

(** *** Sections as the page loop builds them *)

Lemma existsb_nonspace_strip (s : str) :
  existsb nonspace (strip s) = existsb nonspace s.
Proof.
  unfold strip, rstrip.
  now rewrite existsb_rev, existsb_lstrip, existsb_rev, existsb_lstrip.
Qed.

Lemma nonempty_strip_strip (s : str) :
  nonempty (strip (strip s)) = nonempty (strip s).
Proof.
  change (nonblank (strip s) = nonblank s).
  rewrite !nonblank_existsb. apply existsb_nonspace_strip.
Qed.

Lemma title_from_nonempty (b : bool) (s : str) : s <> [] -> title_from b s <> [].
Proof.
  destruct s as [|c r]; [contradiction|]. intros _. simpl.
  destruct b; [discriminate|].
  unfold title_char.
  repeat match goal with |- context [if ?c then _ else _] => destruct c end;
    discriminate.
Qed.

Lemma nonempty_true (s : str) : nonempty s = true <-> s <> [].
Proof. destruct s; simpl; split; congruence. Qed.

Lemma line_heading_nonempty (line h : str) :
  nonempty (strip line) = true -> line <> [] -> line_heading line = Some h -> h <> [].
Proof.
  intros Hs Hl. unfold line_heading.
  destruct (matches RE_ALL_CAPS_HEADING line && (5 <? length line)%nat).
  { intros [= <-]. now apply title_from_nonempty. }
  destruct (matches RE_CHAPTER line); [intros [= <-]; now apply nonempty_true|].
  destruct (matches RE_NUMBERED_SECTION line); [intros [= <-]; now apply nonempty_true|].
  discriminate.
Qed.

Lemma scan_heading_nonempty (lines : list str) (h : str) :
  scan_heading lines = Some h -> h <> [].
Proof.
  induction lines as [|l rest IH]; [discriminate|]. simpl.
  destruct (nonempty (strip l)) eqn:E; simpl; [|exact IH].
  destruct (line_heading (strip l)) as [h'|] eqn:Hl; [|exact IH].
  intros [= <-]. apply (line_heading_nonempty (line := strip l)).
  - now rewrite nonempty_strip_strip.
  - now apply nonempty_true.
  - exact Hl.
Qed.

(** A detected heading is never the empty string. *)
Lemma detect_heading_nonempty (text h : str) :
  detect_heading text = Some h -> h <> [].
Proof. apply scan_heading_nonempty. Qed.

(** The two outcomes of one iteration: the page extends the open section,
    or its heading, different from the open title, closes that section. *)
Lemma page_step_cases (secs : list section) (cur : section) (i : Z) (p : page) :
  (heading_agrees (detect_heading (text_of p)) (sec_title cur)
   /\ page_step (secs, cur) i p = (secs, extend cur i p))
  \/ exists h,
      detect_heading (text_of p) = Some h /\ h <> [] /\ h <> sec_title cur
      /\ page_step (secs, cur) i p
         = (if kept cur then secs ++ [cur] else secs, extend (new_section h) i p).
Proof.
  unfold page_step. fold (text_of p).
  destruct (detect_heading (text_of p)) as [h|] eqn:Hd.
  - pose proof (detect_heading_nonempty _ Hd) as Hne.
    apply nonempty_true in Hne. rewrite Hne. simpl.
    destruct (str_eqb h (sec_title cur)) eqn:E; simpl.
    + left. apply str_eqb_eq in E. subst h. split; [now right|reflexivity].
    + right. exists h. repeat split.
      * now apply nonempty_true.
      * intros ->. rewrite (proj2 (str_eqb_eq _ _) eq_refl) in E. discriminate.
  - left. split; [now left|reflexivity].
Qed.

Lemma page_run_snoc (first count : nat) :
  page_run first (S count) = page_run first count ++ [Z.of_nat (first + count)].
Proof. unfold page_run. now rewrite seq_S, map_app. Qed.

Section Built.
Variable txt : Z -> str.
Variable tbl : Z -> list table.

Lemma built_extend (g : section) (n : nat) (p : page) (first count : nat) :
  txt (Z.of_nat n + 1) = text_of p ->
  tbl (Z.of_nat n + 1) = page_tables p ->
  built_from txt tbl g ->
  sec_pages g = page_run first count ->
  (first + count = S n)%nat ->
  heading_agrees (detect_heading (text_of p)) (sec_title g) ->
  (sec_pages g = [] ->
   sec_title g = cps "Introduction" \/ detect_heading (text_of p) = Some (sec_title g)) ->
  built_from txt tbl (extend g (Z.of_nat n + 1) p)
  /\ sec_pages (extend g (Z.of_nat n + 1) p) = page_run first (S count).
Proof.
  intros Ht Hb [Hc Htb Hrun Hag Hti Hnm] Hpages Hend Hagree Hfirst.
  assert (Hnum : (Z.of_nat n + 1)%Z = Z.of_nat (first + count)) by lia.
  split.
  - constructor; simpl.
    + rewrite flat_map_app, Hc. simpl. now rewrite Ht, app_nil_r.
    + rewrite flat_map_app, Htb. simpl. now rewrite Hb, app_nil_r.
    + exists first, (S count). split.
      * rewrite Hpages, page_run_snoc. now rewrite Hnum.
      * destruct Hrun as (f & c & Hfc & Hf1).
        destruct count as [|count]; [lia|].
        rewrite Hpages in Hfc. destruct c as [|c]; [discriminate|].
        unfold page_run in Hfc. simpl in Hfc. injection Hfc as Hfc _.
        apply Nat2Z.inj in Hfc. lia.
    + apply Forall_app. split; [exact Hag|].
      constructor; [|constructor]. now rewrite Ht.
    + destruct (sec_pages g) as [|i rest] eqn:E.
      * destruct (Hfirst eq_refl) as [Hintro|Hhead]; [now left|].
        right. exists (Z.of_nat n + 1)%Z, []. split; [reflexivity|]. now rewrite Ht.
      * destruct Hti as [Hintro|(i' & rest' & [= <- <-] & Hhead)]; [now left|].
        right. exists i, (rest ++ [(Z.of_nat n + 1)%Z]). now split.
    + exact Hnm.
  - simpl. rewrite Hpages, page_run_snoc. now rewrite Hnum.
Qed.

Lemma page_step_built (n : nat) (st : list section * section) (p : page) :
  txt (Z.of_nat n + 1) = text_of p ->
  tbl (Z.of_nat n + 1) = page_tables p ->
  loop_built txt tbl n st ->
  loop_built txt tbl (S n) (page_step st (Z.of_nat n + 1) p).
Proof.
  intros Ht Hb (Hsecs & Hkept & Hcur & first & count & Hpages & Hend).
  destruct st as [secs cur]. simpl in Hsecs, Hkept, Hcur, Hpages.
  destruct (page_step_cases secs cur (Z.of_nat n + 1) p)
    as [[Hagree ->] | (h & Hd & Hne & Hdiff & ->)].
  - destruct (@built_extend cur n p first count Ht Hb Hcur Hpages Hend Hagree)
      as [Hb' Hp'].
    { intros Hnil. destruct (built_title Hcur) as [Hi|(i & rest & Hi & _)];
        [now left|]. rewrite Hnil in Hi. discriminate. }
    split; [exact Hsecs|]. split; [exact Hkept|]. split; [exact Hb'|].
    exists first, (S count). split; [exact Hp'|lia].
  - assert (Hnum : (Z.of_nat n + 1)%Z = Z.of_nat (S n)) by lia.
    split; [|split; [|split]]; simpl.
    + destruct (kept cur); [|exact Hsecs].
      apply Forall_app. split; [exact Hsecs|]. now constructor.
    + destruct (kept cur) eqn:Hk; [|exact Hkept].
      apply Forall_app. split; [exact Hkept|]. now constructor.
    + constructor; simpl.
      * now rewrite Ht, app_nil_r.
      * now rewrite Hb, app_nil_r.
      * exists (S n), 1%nat. split; [now rewrite Hnum|lia].
      * constructor; [|constructor]. rewrite Ht. now right.
      * right. exists (Z.of_nat n + 1)%Z, []. split; [reflexivity|]. now rewrite Ht.
      * exact Hne.
    + exists (S n), 1%nat. split; [now rewrite Hnum|lia].
Qed.

Lemma page_loop_built (ps : list page) :
  forall (n : nat) (st : list section * section),
    (forall k p, nth_error ps k = Some p ->
                 txt (Z.of_nat (n + k) + 1) = text_of p
                 /\ tbl (Z.of_nat (n + k) + 1) = page_tables p) ->
    loop_built txt tbl n st ->
    loop_built txt tbl (n + length ps) (page_loop st (Z.of_nat n) ps).
Proof.
  induction ps as [|p ps IH]; intros n st Ht Hinv.
  - simpl. now rewrite Nat.add_0_r.
  - simpl. replace (n + S (length ps))%nat with (S n + length ps)%nat by lia.
    replace (Z.of_nat n + 1)%Z with (Z.of_nat (S n)) at 2 by lia.
    apply IH.
    + intros k q Hk. replace (S n + k)%nat with (n + S k)%nat by lia.
      now apply Ht.
    + destruct (Ht 0%nat p eq_refl) as [H1 H2]. rewrite Nat.add_0_r in H1, H2.
      now apply page_step_built.
Qed.
End Built.

(** Every produced section is built from its pages and is non-blank. *)
Lemma extract_sections_built (pages : list page) (max_pages : Z) :
  Forall (fun g => built_from (page_text_at pages) (tables_at pages) g
                   /\ kept g = true)
         (extract_sections pages max_pages).
Proof.
  unfold extract_sections.
  set (n := pages_processed pages max_pages).
  set (st0 := ([], new_section (cps "Introduction"))).
  assert (Hlen : length (firstn n pages) = n).
  { rewrite length_firstn. pose proof (pages_processed_le pages max_pages). lia. }
  assert (Hinv : loop_built (page_text_at pages) (tables_at pages)
                   (0 + length (firstn n pages))
                   (page_loop st0 (Z.of_nat 0) (firstn n pages))).
  { apply page_loop_built.
    - intros k p Hk. unfold page_text_at, tables_at.
      replace (Z.to_nat (Z.of_nat (0 + k) + 1 - 1)) with k by lia.
      rewrite nth_error_firstn in Hk.
      destruct (k <? n)%nat; [|discriminate]. now rewrite Hk.
    - split; [constructor|]. split; [constructor|]. split.
      + constructor; simpl; try reflexivity.
        * exists 1%nat, 0%nat. now split.
        * constructor.
        * now left.
        * discriminate.
      + exists 1%nat, 0%nat. now split. }
  change (Z.of_nat 0) with 0%Z in Hinv.
  destruct (page_loop st0 0 (firstn n pages)) as [secs cur].
  destruct Hinv as (Hsecs & Hkept & Hcur & _). simpl in Hsecs, Hkept, Hcur.
  assert (Hboth : Forall (fun g => built_from (page_text_at pages) (tables_at pages) g
                                   /\ kept g = true) secs).
  { rewrite Forall_forall in *. intros g Hg. split; [now apply Hsecs|now apply Hkept]. }
  fold (nonblank (sec_content cur)). fold (kept cur).
  destruct (kept cur) eqn:Hk; [|exact Hboth].
  apply Forall_app. split; [exact Hboth|]. now constructor.
Qed.

(** X1: every section that extraction produces has a non-empty title, at
    least one page and text that is not blank. *)
Theorem sections_wellformed :
  forall (pages : list page) (max_pages : Z),
    Forall (fun s => sec_title s <> [] /\ sec_pages s <> []
                     /\ nonblank (sec_content s) = true)
           (extract_sections pages max_pages).
Proof.
  intros pages max_pages.
  eapply Forall_impl; [|apply extract_sections_built].
  intros g [Hb Hk]. split; [exact (built_named Hb)|]. split; [|exact Hk].
  intros Hnil. unfold kept in Hk.
  rewrite (built_content Hb), Hnil in Hk. discriminate.
Qed.

Lemma StronglySorted_app_iff (l1 l2 : list Z) :
  Sorted.StronglySorted Z.lt (l1 ++ l2)
  <-> Sorted.StronglySorted Z.lt l1 /\ Sorted.StronglySorted Z.lt l2
      /\ forall x y, In x l1 -> In y l2 -> (x < y)%Z.
Proof.
  induction l1 as [|a l1 IH]; simpl.
  - split; [intros H; repeat split; [constructor|exact H|intros x y []]|tauto].
  - split.
    + intros H. apply Sorted.StronglySorted_inv in H. destruct H as [Hs Hall].
      apply IH in Hs. destruct Hs as (H1 & H2 & H12).
      rewrite Forall_app in Hall. destruct Hall as [Ha1 Ha2].
      repeat split; [now constructor|exact H2|].
      intros x y [<-|Hx] Hy; [|now apply H12].
      rewrite Forall_forall in Ha2. now apply Ha2.
    + intros (H1 & H2 & H12).
      apply Sorted.StronglySorted_inv in H1. destruct H1 as [Hs Hall].
      constructor.
      * apply IH. repeat split; [exact Hs|exact H2|]. intros x y Hx. apply H12. now right.
      * apply Forall_app. split; [exact Hall|].
        apply Forall_forall. intros y Hy. apply H12; [now left|exact Hy].
Qed.

Lemma page_run_sorted (first count : nat) :
  Sorted.StronglySorted Z.lt (page_run first count).
Proof.
  revert first. induction count as [|count IH]; intros first; [constructor|].
  unfold page_run in *. simpl. constructor; [apply IH|].
  apply Forall_forall. intros y Hy. apply in_map_iff in Hy.
  destruct Hy as (k & <- & Hk). apply in_seq in Hk. lia.
Qed.

Lemma all_pages_filter_incl (f : section -> bool) (groups : list section) :
  incl (all_pages (filter f groups)) (all_pages groups).
Proof.
  induction groups as [|g gs IH]; [easy|].
  unfold all_pages in *. simpl. destruct (f g); simpl.
  - apply incl_app; [apply incl_appl, incl_refl|apply incl_appr, IH].
  - apply incl_appr, IH.
Qed.

Lemma all_pages_filter_sorted (f : section -> bool) (groups : list section) :
  Sorted.StronglySorted Z.lt (all_pages groups) ->
  Sorted.StronglySorted Z.lt (all_pages (filter f groups)).
Proof.
  induction groups as [|g gs IH]; intros H; [exact H|].
  change (all_pages (g :: gs)) with (sec_pages g ++ all_pages gs) in H.
  apply StronglySorted_app_iff in H. destruct H as (H1 & H2 & H12).
  simpl. destruct (f g); [|now apply IH].
  change (all_pages (g :: filter f gs)) with (sec_pages g ++ all_pages (filter f gs)).
  apply StronglySorted_app_iff. repeat split; [exact H1|now apply IH|].
  intros x y Hx Hy. apply H12; [exact Hx|]. now apply (all_pages_filter_incl f gs).
Qed.

(** X2: the pages of a produced section are consecutive page numbers, and
    the page lists of the sections, one after the other, ascend strictly
    within the range of processed pages. *)
Theorem sections_page_runs :
  forall (pages : list page) (max_pages : Z),
    let out := extract_sections pages max_pages in
    Forall (fun s => exists first count,
                (1 <= first)%nat /\ (0 < count)%nat
                /\ sec_pages s = page_run first count) out
    /\ Sorted.StronglySorted Z.lt (all_pages out)
    /\ Forall (fun i => (1 <= i <= Z.of_nat (pages_processed pages max_pages))%Z)
              (all_pages out).
Proof.
  intros pages max_pages out. subst out. split; [|split].
  - eapply Forall_impl; [|apply extract_sections_built].
    intros g [Hb Hk]. destruct (built_run Hb) as (first & count & Hrun & H1).
    exists first, count. repeat split; [exact H1| |exact Hrun].
    destruct count as [|count]; [|lia].
    unfold kept in Hk. rewrite (built_content Hb), Hrun in Hk. discriminate.
  - destruct (extract_sections_partition pages max_pages) as (groups & Hpart & -> & _).
    apply all_pages_filter_sorted. rewrite Hpart. apply page_run_sorted.
  - destruct (extract_sections_partition pages max_pages) as (groups & Hpart & -> & _).
    apply Forall_forall. intros i Hi.
    apply all_pages_filter_incl in Hi. rewrite Hpart in Hi.
    now apply In_page_numbers.
Qed.

(** X3: the text of a produced section is the text of its pages, each
    followed by a newline, in page order; its tables are the tables of
    those pages, in order. *)
Theorem sections_text_of_pages :
  forall (pages : list page) (max_pages : Z),
    Forall (fun s => sec_content s
                     = flat_map (fun i => page_text_at pages i ++ [10%N]) (sec_pages s)
                     /\ sec_tables s = flat_map (tables_at pages) (sec_pages s))
           (extract_sections pages max_pages).
Proof.
  intros pages max_pages.
  eapply Forall_impl; [|apply extract_sections_built].
  intros g [Hb _]. split; [exact (built_content Hb)|exact (built_tables Hb)].
Qed.


Lemma firstn_pages_processed (pages : list page) (max_pages : Z) :
  firstn (pages_processed pages max_pages) pages
  = if (0 <? max_pages)%Z then firstn (Z.to_nat max_pages) pages else pages.
Proof.
  unfold pages_processed.
  destruct (0 <? max_pages)%Z eqn:E.
  - apply Z.ltb_lt in E.
    destruct (Z.le_ge_cases max_pages (Z.of_nat (length pages))) as [H|H].
    + now rewrite Z.min_l by exact H.
    + rewrite Z.min_r by lia. rewrite Nat2Z.id.
      rewrite firstn_all. symmetry. apply firstn_all2. lia.
  - rewrite Z.min_id, Nat2Z.id. apply firstn_all.
Qed.

(** X5: the page limit.  A positive [max_pages] makes extraction run on the
    first [max_pages] pages only, exactly as if the document ended there;
    zero or a negative value sets no limit. *)
Theorem max_pages_is_a_prefix :
  forall (pages : list page) (max_pages : Z),
    extract_sections pages max_pages
    = extract_sections (if (0 <? max_pages)%Z
                        then firstn (Z.to_nat max_pages) pages else pages) 0.
Proof.
  intros pages max_pages. unfold extract_sections.
  rewrite firstn_pages_processed.
  set (ps := if (0 <? max_pages)%Z then firstn (Z.to_nat max_pages) pages else pages).
  now rewrite (firstn_pages_processed ps 0).
Qed.

Lemma length_le_all_pages (l : list section) :
  Forall (fun s => sec_pages s <> []) l -> (length l <= length (all_pages l))%nat.
Proof.
  induction 1 as [|s l Hs _ IH]; [reflexivity|].
  unfold all_pages in *. simpl. rewrite length_app.
  destruct (sec_pages s); [contradiction|simpl; lia].
Qed.

(** X6: extraction never produces more sections than it processed pages. *)
Theorem sections_at_most_pages :
  forall (pages : list page) (max_pages : Z),
    (length (extract_sections pages max_pages) <= pages_processed pages max_pages)%nat.
Proof.
  intros pages max_pages.
  assert (Hne : Forall (fun s => sec_pages s <> []) (extract_sections pages max_pages)).
  { eapply Forall_impl; [|apply extract_sections_built].
    intros g [Hb Hk] Hnil. unfold kept in Hk.
    rewrite (built_content Hb), Hnil in Hk. discriminate. }
  eapply Nat.le_trans; [apply (length_le_all_pages Hne)|].
  destruct (extract_sections_partition pages max_pages) as (groups & Hpart & Hout & _).
  rewrite Hout.
  replace (pages_processed pages max_pages)
    with (length (page_numbers (pages_processed pages max_pages)))
    by (unfold page_numbers; now rewrite length_map, length_seq).
  apply NoDup_incl_length.
  - apply (NoDup_count_occ Z.eq_dec). intros j.
    eapply Nat.le_trans; [apply count_occ_all_pages_filter|].
    rewrite Hpart. apply NoDup_count_occ, NoDup_page_numbers.
  - rewrite <- Hpart. apply all_pages_filter_incl.
Qed.

(** *** Skip rules, continued *)






(** *** Facts about the matcher *)

Lemma run_seq_cons (A : Type) (r : re) (rs : list re) (prev : option char) (s : str)
      (k : option char -> str -> option A) :
  Re.run (seq (r :: rs)) prev s k = Re.run r prev s (fun p' s' => Re.run (seq rs) p' s' k).
Proof. destruct rs; reflexivity. Qed.

Lemma run_alts_cons (A : Type) (r r' : re) (rs : list re) (prev : option char)
      (s : str) (k : option char -> str -> option A) :
  Re.run (alts (r :: r' :: rs)) prev s k
  = match Re.run r prev s k with
    | Some x => Some x
    | None => Re.run (alts (r' :: rs)) prev s k
    end.
Proof. reflexivity. Qed.

(** A case-insensitive literal consumes any spelling of itself. *)
Lemma run_ilit (A : Type) (l : str) :
  forall (w rest : str) (prev : option char) (k : option char -> str -> option A),
    map fold_case w = map fold_case l ->
    exists prev', Re.run (seq (map ichr l)) prev (w ++ rest) k = k prev' rest.
Proof.
  induction l as [|c l IH]; intros w rest prev k Hw.
  - destruct w; [|discriminate]. now exists prev.
  - destruct w as [|x w]; [discriminate|]. simpl in Hw. injection Hw as Hx Hw.
    change (map ichr (c :: l)) with (ichr c :: map ichr l).
    rewrite run_seq_cons. simpl. rewrite Hx, N.eqb_refl.
    apply IH. exact Hw.
Qed.

(** A greedy repetition succeeds on a run of the class that meets its lower
    bound whenever what follows succeeds after that run. *)
Lemma rep_go_some (A : Type) (p : char -> bool) (s : str)
      (k : option char -> str -> option A) :
  (forall pr, k pr s <> None) ->
  forall (ws : str) (lo : nat) (prev : option char),
    Forall (fun c => p c = true) ws ->
    (lo <= length ws)%nat ->
    rep_go p lo None prev (ws ++ s) k <> None.
Proof.
  intros Hk ws. induction ws as [|c ws IH]; intros lo prev Hws Hlo.
  - simpl in Hlo. assert (lo = 0%nat) by lia. subst lo. simpl.
    destruct s as [|c t]; simpl; [apply Hk|].
    destruct (p c); simpl; [|apply Hk].
    destruct (rep_go p 0 None (Some c) t k); [discriminate|apply Hk].
  - inversion Hws as [|c' ws' Hc Hws']; subst. simpl. rewrite Hc. simpl.
    assert (Hin : rep_go p (lo - 1) None (Some c) (ws ++ s) k <> None)
      by (apply IH; [exact Hws'|simpl in Hlo; lia]).
    destruct (rep_go p (lo - 1) None (Some c) (ws ++ s) k); [discriminate|contradiction].
Qed.

Lemma fold_case_cps_lower (kw : string) :
  forallb (within 97 122) (cps kw) = true -> map fold_case (cps kw) = cps kw.
Proof.
  induction (cps kw) as [|c l IH]; [reflexivity|]. simpl.
  intros H. apply andb_true_iff in H. destruct H as [Hc Hl].
  rewrite (IH Hl). f_equal.
  unfold within in Hc. apply andb_true_iff in Hc. destruct Hc as [H1 H2].
  apply N.leb_le in H1, H2.
  unfold fold_case, lower_char, isupper_latin, within.
  repeat match goal with
         | |- context [(?a =? ?b)%N] =>
             let E := fresh in destruct (N.eqb_spec a b) as [E|E]; [lia|]
         | |- context [(?a <=? ?b)%N] =>
             let E := fresh in destruct (N.leb_spec a b) as [E|E]; try lia
         end; reflexivity.
Qed.

(** A spelled phrase is matched by its words with [\s+] between them. *)
Lemma run_ilit_word (A : Type) (kw : string) (w rest : str) (prev : option char)
      (k : option char -> str -> option A) :
  forallb (within 97 122) (cps kw) = true ->
  map fold_case w = cps kw ->
  exists prev', Re.run (ilit kw) prev (w ++ rest) k = k prev' rest.
Proof.
  intros Hkw Hw. apply run_ilit. now rewrite fold_case_cps_lower.
Qed.

Lemma run_plus_space (A : Type) (sp s : str) (prev : option char)
      (k : option char -> str -> option A) :
  sp <> [] -> all_space sp ->
  (forall pr, k pr s <> None) ->
  Re.run (plus isspace) prev (sp ++ s) k <> None.
Proof.
  intros Hne Hsp Hk. apply rep_go_some; [exact Hk|exact Hsp|].
  destruct sp; [contradiction|simpl; lia].
Qed.

Lemma run_alts_some (A : Type) (rs : list re) (r : re) (prev : option char) (s : str)
      (k : option char -> str -> option A) :
  In r rs -> Re.run r prev s k <> None -> Re.run (alts rs) prev s k <> None.
Proof.
  induction rs as [|r0 rs IH]; intros Hin Hr; [destruct Hin|].
  destruct rs as [|r1 rs].
  - destruct Hin as [<-|[]]. exact Hr.
  - rewrite run_alts_cons.
    destruct (Re.run r0 prev s k) eqn:E; [discriminate|].
    destruct Hin as [<-|Hin]; [contradiction|]. now apply IH.
Qed.

Lemma spells_one (kw : string) (t : str) :
  spells [kw] t -> map fold_case t = cps kw.
Proof.
  intros H. inversion H as [kw' w Hw|kw' kws w sp t' Hw Hne Hws Ht]; subst.
  - exact Hw.
  - inversion Ht.
Qed.

Lemma spells_more (kw kw' : string) (kws : list string) (t : str) :
  spells (kw :: kw' :: kws) t ->
  exists w sp t',
    t = w ++ sp ++ t' /\ map fold_case w = cps kw /\ sp <> [] /\ all_space sp
    /\ spells (kw' :: kws) t'.
Proof.
  intros H. inversion H as [|k0 ks w sp t' Hw Hne Hws Ht]; subst.
  now exists w, sp, t'.
Qed.

Lemma run_one_word (A : Type) (kw : string) (t rest : str) (prev : option char)
      (k : option char -> str -> option A) :
  forallb (within 97 122) (cps kw) = true ->
  spells [kw] t ->
  (forall pr, k pr rest <> None) ->
  Re.run (ilit kw) prev (t ++ rest) k <> None.
Proof.
  intros Hkw Hsp Hk. apply spells_one in Hsp.
  destruct (@run_ilit_word A kw t rest prev k Hkw Hsp) as [pr ->]. apply Hk.
Qed.

Lemma run_three_words (A : Type) (kw1 kw2 kw3 : string) (t rest : str)
      (prev : option char) (k : option char -> str -> option A) :
  forallb (within 97 122) (cps kw1) = true ->
  forallb (within 97 122) (cps kw2) = true ->
  forallb (within 97 122) (cps kw3) = true ->
  spells [kw1; kw2; kw3] t ->
  (forall pr, k pr rest <> None) ->
  Re.run (seq [ilit kw1; plus isspace; ilit kw2; plus isspace; ilit kw3])
         prev (t ++ rest) k <> None.
Proof.
  intros H1 H2 H3 Hsp Hk.
  apply spells_more in Hsp. destruct Hsp as (w1 & sp1 & t1 & -> & Hw1 & Hne1 & Hs1 & Hsp).
  apply spells_more in Hsp. destruct Hsp as (w2 & sp2 & w3 & -> & Hw2 & Hne2 & Hs2 & Hsp).
  apply spells_one in Hsp. rename Hsp into Hw3.
  rewrite <- !app_assoc. rewrite run_seq_cons.
  destruct (@run_ilit_word A kw1 w1 (sp1 ++ w2 ++ sp2 ++ w3 ++ rest) prev
              (fun p' s' => Re.run (seq [plus isspace; ilit kw2; plus isspace; ilit kw3])
                                   p' s' k) H1 Hw1) as [pr1 ->].
  rewrite run_seq_cons. apply run_plus_space; [exact Hne1|exact Hs1|]. intros pr2.
  rewrite run_seq_cons.
  destruct (@run_ilit_word A kw2 w2 (sp2 ++ w3 ++ rest) pr2
              (fun p' s' => Re.run (seq [plus isspace; ilit kw3]) p' s' k) H2 Hw2)
    as [pr3 ->].
  rewrite run_seq_cons. apply run_plus_space; [exact Hne2|exact Hs2|]. intros pr4.
  destruct (@run_ilit_word A kw3 w3 rest pr4 k H3 Hw3) as [pr5 E].
  change (seq [ilit kw3]) with (ilit kw3). rewrite E. apply Hk.
Qed.

(** The title rule is a prefix rule: after any leading whitespace, a title
    that begins with one of the phrases, in any letter case, matches. *)
Lemma skip_patterns_prefix (phrase : list string) (ws t rest : str) :
  In phrase skip_phrases -> all_space ws -> spells phrase t ->
  matches SKIP_PATTERNS (ws ++ t ++ rest) = true.
Proof.
  intros Hin Hws Hsp. unfold matches, match_here.
  set (K := fun (_ : option char) (r : str) => Some r).
  assert (HK : forall pr, K pr rest <> None) by (intros pr; discriminate).
  assert (Hrun : Re.run SKIP_PATTERNS None (ws ++ t ++ rest) K <> None).
  { unfold SKIP_PATTERNS. rewrite run_seq_cons.
    cbn [Re.run]. rewrite run_seq_cons.
    apply rep_go_some; [|exact Hws|apply Nat.le_0_l].
    intros pr. cbn [seq].
    unfold skip_phrases in Hin. simpl in Hin.
    destruct Hin as [<-|[<-|[<-|[<-|[<-|[<-|[<-|[]]]]]]]].
    - apply (@run_alts_some _ _
               (seq [ilit "table"; plus isspace; ilit "of"; plus isspace; ilit "contents"]));
        [simpl; tauto|]. now apply run_three_words.
    - apply (@run_alts_some _ _ (ilit "index")); [simpl; tauto|]. now apply run_one_word.
    - apply (@run_alts_some _ _ (ilit "copyright")); [simpl; tauto|].
      now apply run_one_word.
    - apply (@run_alts_some _ _ (ilit "disclaimer")); [simpl; tauto|].
      now apply run_one_word.
    - apply (@run_alts_some _ _ (ilit "foreword")); [simpl; tauto|].
      now apply run_one_word.
    - apply (@run_alts_some _ _ (ilit "preface")); [simpl; tauto|].
      now apply run_one_word.
    - apply (@run_alts_some _ _
               (seq [ilit "how"; plus isspace; ilit "to"; plus isspace; ilit "use"]));
        [simpl; tauto|]. now apply run_three_words. }
  destruct (Re.run SKIP_PATTERNS None (ws ++ t ++ rest) K); [reflexivity|contradiction].
Qed.

(** X8: the title rule is a prefix rule.  A section whose title begins, after
    any leading whitespace, with one of the seven phrases in any letter
    case is skipped whatever follows in the title and whatever its
    content: "Indexing the camshaft" is skipped like "Index". *)
Theorem skip_title_prefix :
  forall (phrase : list string) (ws t rest content : str),
    In phrase skip_phrases ->
    all_space ws ->
    spells phrase t ->
    should_skip_section (ws ++ t ++ rest) content = true.
Proof.
  intros phrase ws t rest content Hin Hws Hsp.
  unfold should_skip_section.
  now rewrite (skip_patterns_prefix rest Hin Hws Hsp).
Qed.

Lemma skip_title_prefix_witness :
  should_skip_section (cps "  " ++ (cps "How" ++ cps " " ++ cps "TO" ++ [9%N; 32%N] ++ cps "Use")
                           ++ cps " this manual")
                      (repeat 97%N 500) = true.
Proof.
  apply (@skip_title_prefix ["how"; "to"; "use"]).
  - simpl. tauto.
  - repeat constructor.
  - apply spells_words; [reflexivity|discriminate|repeat constructor|].
    apply spells_words; [reflexivity|discriminate|repeat constructor|].
    apply spells_word. reflexivity.
Defined.

(** *** Entity bundle, continued *)










(** What a successful greedy repetition consumed. *)
Lemma rep_go_sound (A : Type) (p : char -> bool) (k : option char -> str -> option A)
      (x : A) (s : str) :
  forall (lo : nat) (hi : option nat) (prev : option char),
    rep_go p lo hi prev s k = Some x ->
    exists taken rest prev',
      s = taken ++ rest
      /\ forallb p taken = true
      /\ (lo <= length taken)%nat
      /\ (forall h, hi = Some h -> (length taken <= h)%nat)
      /\ k prev' rest = Some x.
Proof.
  induction s as [|c t IH]; intros lo hi prev H.
  - simpl in H. destruct lo; [|discriminate]. simpl in H.
    exists [], [], prev. repeat split; [lia|intros; simpl; lia|exact H].
  - simpl in H.
    assert (Hstop : (if (lo =? 0)%nat then k prev (c :: t) else None) = Some x ->
                    exists taken rest prev',
                      c :: t = taken ++ rest /\ forallb p taken = true
                      /\ (lo <= length taken)%nat
                      /\ (forall h, hi = Some h -> (length taken <= h)%nat)
                      /\ k prev' rest = Some x).
    { intros Hs. destruct lo; [|discriminate]. simpl in Hs.
      exists [], (c :: t), prev. repeat split; [lia|intros; simpl; lia|exact Hs]. }
    destruct (p c) eqn:Hc; simpl in H; [|now apply Hstop].
    destruct (match hi with Some 0%nat => true | _ => false end) eqn:Hhi; simpl in H;
      [now apply Hstop|].
    destruct (rep_go p (lo - 1) (option_map pred hi) (Some c) t k) as [y|] eqn:E;
      [|now apply Hstop].
    injection H as ->.
    destruct (IH _ _ _ E) as (taken & rest & prev' & -> & Hp & Hlo & Hh & Hk).
    exists (c :: taken), rest, prev'. repeat split.
    + simpl. now rewrite Hc, Hp.
    + simpl. lia.
    + intros h ->. simpl in *. destruct h; [discriminate|].
      specialize (Hh h eq_refl). lia.
    + exact Hk.
Qed.

(** What a match of the connector pattern consumed. *)
Lemma match_here_connector (prev : option char) (s rest : str) :
  match_here RE_CONNECTOR prev s = Some rest ->
  exists m, s = m ++ rest /\ is_connector m = true.
Proof.
  unfold match_here, RE_CONNECTOR. intros H.
  rewrite run_seq_cons in H. cbn [Re.run] in H.
  destruct (xorb _ _); [|discriminate].
  rewrite run_seq_cons in H.
  destruct s as [|c t]; [discriminate|].
  cbn [Re.run] in H. destruct (upper_AZ c) eqn:Hc; [|discriminate].
  rewrite run_seq_cons in H. cbn [Re.run between] in H.
  apply rep_go_sound in H.
  destruct H as (ds & rest' & prev' & -> & Hds & Hlo & Hhi & Hk).
  cbn [seq Re.run] in Hk. destruct (xorb _ _); [|discriminate].
  injection Hk as ->.
  exists (c :: ds). split; [reflexivity|].
  specialize (Hhi 4%nat eq_refl). unfold is_connector.
  rewrite Hc, Hds, (proj2 (Nat.leb_le _ _) Hlo), (proj2 (Nat.leb_le _ _) Hhi).
  reflexivity.
Qed.

Lemma firstn_length_diff (m rest : str) :
  firstn (length (m ++ rest) - length rest) (m ++ rest) = m.
Proof.
  rewrite length_app, Nat.add_sub.
  rewrite firstn_app, Nat.sub_diag, firstn_all. simpl. apply app_nil_r.
Qed.

(** Every element of [findall] is the text of a match. *)
Lemma findall_go_sound (r : re) (m : str) :
  forall (s : str) (skip : nat) (prev : option char),
    In m (findall_go r skip prev s) ->
    exists prev' s' rest,
      match_here r prev' s' = Some rest /\ m = firstn (length s' - length rest) s'.
Proof.
  induction s as [|c t IH]; intros skip prev Hin.
  - destruct skip; simpl in Hin; [|destruct Hin].
    destruct (match_here r prev []) as [rest|] eqn:E; [|destruct Hin].
    destruct Hin as [<-|[]]. now exists prev, [], rest.
  - destruct skip; simpl in Hin; [|now apply IH in Hin].
    destruct (match_here r prev (c :: t)) as [rest|] eqn:E; [|now apply IH in Hin].
    destruct Hin as [<-|Hin]; [now exists prev, (c :: t), rest|].
    now apply IH in Hin.
Qed.

Lemma In_firstn (A : Type) (n : nat) (l : list A) (x : A) :
  In x (firstn n l) -> In x l.
Proof.
  revert n. induction l as [|a l IH]; intros [|n] H; try destruct H.
  - now left.
  - right. now apply (IH n).
Qed.

(** X10: every connector entity is a capital letter followed by one to four
    digits. *)
Theorem connectors_are_designators :
  forall text : str,
    Forall (fun m => is_connector m = true) (ner_list "connectors" (regex_ner text)).
Proof.
  intros text.
  change (Forall (fun m => is_connector m = true)
                 (list_set (firstn 20 (findall RE_CONNECTOR text)))).
  apply Forall_forall. intros m Hm.
  unfold list_set in Hm. apply nodup_In in Hm.
  apply In_firstn in Hm. unfold findall in Hm.
  apply findall_go_sound in Hm. destruct Hm as (prev & s & rest & Hmatch & ->).
  apply match_here_connector in Hmatch. destruct Hmatch as (m & -> & Hm).
  now rewrite firstn_length_diff.
Qed.

(** *** The section loop *)

(** One iteration of the section loop. *)
Lemma process_sections_cons (cl : option client) (v : vehicle)
      (pdf_path output_dir now : str) (idx : Z) (s : section) (rest : list section)
      (acc : run) :
  process_sections cl v pdf_path output_dir now idx (s :: rest) acc
  = if should_skip_section (sec_title s) (sec_content s)
    then process_sections cl v pdf_path output_dir now (idx + 1) rest acc
    else match content_hash (sec_content s) with
         | None => raise (snd (llm_stage cl v s acc))
         | Some h =>
             process_sections cl v pdf_path output_dir now (idx + 1) rest
               (add_file (snd (llm_stage cl v s acc))
                         (section_file v pdf_path output_dir now idx s
                                       (fst (llm_stage cl v s acc)) h))
         end.
Proof.
  simpl. unfold llm_stage.
  destruct (should_skip_section (sec_title s) (sec_content s)); [reflexivity|].
  destruct cl as [c|]; [|reflexivity].
  destruct (200 <? length (strip (sec_content s)))%nat; [|reflexivity].
  destruct (claude_extract c (sec_title s) (sec_content s) v
                           (regex_ner (sec_content s))); reflexivity.
Qed.

(** What the LLM stage changes in the run so far. *)
Lemma llm_stage_spec (cl : option client) (v : vehicle) (s : section) (acc : run) :
  let cr := fst (llm_stage cl v s acc) in
  let acc' := snd (llm_stage cl v s acc) in
  files acc' = files acc
  /\ raised acc' = raised acc
  /\ ((cr = None /\ llm_requests acc' = llm_requests acc
       /\ total_claude_calls acc' = total_claude_calls acc
       /\ total_cost acc' = total_cost acc
       /\ (cl = None \/ long_section s = false))
      \/ (exists c, cl = Some c /\ long_section s = true
                    /\ cr = claude_extract c (sec_title s) (sec_content s) v
                                           (regex_ner (sec_content s))
                    /\ llm_requests acc' = llm_requests acc ++ [request_of v s]
                    /\ match cr with
                       | Some r => total_claude_calls acc' = S (total_claude_calls acc)
                                   /\ total_cost acc' = (total_cost acc + cr_cost_usd r)%Q
                       | None => total_claude_calls acc' = total_claude_calls acc
                                 /\ total_cost acc' = total_cost acc
                       end)).
Proof.
  unfold llm_stage, long_section, request_of.
  destruct cl as [c|]; [|simpl; repeat split; left; repeat split; now left].
  destruct (200 <? length (strip (sec_content s)))%nat eqn:Hbig;
    [|simpl; repeat split; left; repeat split; now right].
  destruct (claude_extract c (sec_title s) (sec_content s) v
                           (regex_ner (sec_content s))) as [r|] eqn:Hr;
    simpl; (split; [reflexivity|]); (split; [reflexivity|]); right; exists c;
    rewrite Hr; repeat split.
Qed.

Lemma process_sections_requests (cl : option client) (v : vehicle)
      (pdf_path output_dir now : str) (P : str -> Prop) (sections : list section) :
  (forall s, In s sections -> long_section s = true ->
             should_skip_section (sec_title s) (sec_content s) = false ->
             P (request_of v s)) ->
  forall (idx : Z) (acc : run),
    Forall P (llm_requests acc) ->
    Forall P (llm_requests (process_sections cl v pdf_path output_dir now idx sections acc)).
Proof.
  induction sections as [|s rest IH]; intros HP idx acc Hacc; [exact Hacc|].
  rewrite process_sections_cons.
  assert (Hrest : forall s', In s' rest -> long_section s' = true ->
                             should_skip_section (sec_title s') (sec_content s') = false ->
                             P (request_of v s'))
    by (intros s' Hs'; apply HP; now right).
  destruct (should_skip_section (sec_title s) (sec_content s)) eqn:Hskip;
    [now apply IH|].
  assert (Hstage : Forall P (llm_requests (snd (llm_stage cl v s acc)))).
  { destruct (llm_stage_spec cl v s acc)
      as (_ & _ & [(_ & -> & _)|(c & _ & Hlong & _ & -> & _)]); [exact Hacc|].
    apply Forall_app. split; [exact Hacc|].
    constructor; [|constructor]. apply HP; [now left|exact Hlong|exact Hskip]. }
  destruct (content_hash (sec_content s)); [now apply IH|exact Hstage].
Qed.

(** X11: a request goes to the LLM service only for an extracted section
    that is not skipped and whose stripped text is longer than 200
    characters: a section of exactly 200 characters is written without
    any request, credential or not. *)
Theorem llm_requests_only_for_long_sections :
  forall (w : world) (pdf_path output_dir : str)
         (vehicle_override : option vehicle) (max_pages : Z),
    Forall (fun q =>
              exists pages s,
                open_pdf w (abspath w pdf_path) = Some pages
                /\ In s (extract_sections pages max_pages)
                /\ (200 < length (strip (sec_content s)))%nat
                /\ should_skip_section (sec_title s) (sec_content s) = false
                /\ q = request_of (run_vehicle w pdf_path vehicle_override) s)
           (llm_requests (process_pdf w pdf_path output_dir vehicle_override max_pages)).
Proof.
  intros w pdf_path output_dir vo max_pages. unfold process_pdf.
  fold (run_vehicle w pdf_path vo).
  destruct (open_pdf w (abspath w pdf_path)) as [pages|] eqn:Hopen; [|constructor].
  destruct (extract_sections pages max_pages) as [|s0 rest] eqn:Hsecs; [constructor|].
  apply process_sections_requests; [|constructor].
  intros s Hin Hlong Hskip. exists pages, s. rewrite Hsecs.
  repeat split; try assumption.
  unfold long_section in Hlong. now apply Nat.ltb_lt.
Qed.



Lemma sum_costs_snoc (fs : list written_file) (f : written_file) :
  (sum_costs (fs ++ [f]) == sum_costs fs + cost_of f)%Q.
Proof.
  induction fs as [|g fs IH]; simpl; [ring|]. rewrite IH. ring.
Qed.

Lemma process_sections_stats (cl : option client) (v : vehicle)
      (pdf_path output_dir now : str) (sections : list section) :
  forall (idx : Z) (acc : run),
    let r := process_sections cl v pdf_path output_dir now idx sections acc in
    (total_cost acc == sum_costs (files acc))%Q ->
    (total_claude_calls acc <= length (llm_requests acc) <= length (files acc))%nat ->
    raised r = false ->
    (total_cost r == sum_costs (files r))%Q
    /\ (total_claude_calls r <= length (llm_requests r) <= length (files r))%nat.
Proof.
  induction sections as [|s rest IH]; intros idx acc; [now split|].
  cbv zeta. rewrite process_sections_cons.
  destruct (should_skip_section (sec_title s) (sec_content s)); [apply IH|].
  destruct (content_hash (sec_content s)) as [h|]; [|discriminate].
  intros Hcost Hcount Hraised. apply IH; [| |exact Hraised].
  - simpl. rewrite sum_costs_snoc. unfold cost_of. simpl.
    destruct (llm_stage_spec cl v s acc)
      as (-> & _ & [(-> & _ & _ & -> & _)|(c & _ & _ & Hcr & _ & Hm)]).
    + simpl. rewrite Hcost. ring.
    + destruct (fst (llm_stage cl v s acc)) as [r|]; destruct Hm as [_ ->]; simpl.
      * now rewrite Hcost.
      * rewrite Hcost. ring.
  - simpl. rewrite length_app. simpl.
    destruct (llm_stage_spec cl v s acc)
      as (-> & _ & [(_ & -> & -> & _)|(c & _ & _ & _ & -> & Hm)]); [lia|].
    rewrite length_app. simpl.
    destruct (fst (llm_stage cl v s acc)); destruct Hm as [-> _]; lia.
Qed.

(** X13: the statistics of a run that ends without exception agree with
    its records: the total cost is the sum of the costs recorded in the
    written files, and successful calls are no more than requests, which
    are no more than files. *)
Theorem run_statistics_agree :
  forall (w : world) (pdf_path output_dir : str)
         (vehicle_override : option vehicle) (max_pages : Z),
    let r := process_pdf w pdf_path output_dir vehicle_override max_pages in
    raised r = false ->
    (total_cost r == sum_costs (files r))%Q
    /\ (total_claude_calls r <= length (llm_requests r) <= length (files r))%nat.
Proof.
  intros w pdf_path output_dir vo max_pages. unfold process_pdf.
  destruct (open_pdf w (abspath w pdf_path)) as [pages|]; [|discriminate].
  destruct (extract_sections pages max_pages) as [|s0 rest];
    [intros _; split; [reflexivity|simpl; lia]|].
  intros Hr. apply process_sections_stats; [reflexivity|simpl; lia|exact Hr].
Qed.


Lemma run_statistics_agree_witness :
  let r := process_pdf (online_world engine_manual answering_client)
                       (cps "/manuals/toyota-camry-2015.pdf") (cps "out") None 0 in
  (total_cost r == sum_costs (files r))%Q
  /\ (total_claude_calls r <= length (llm_requests r) <= length (files r))%nat.
Proof.
  apply run_statistics_agree.
  vm_compute. reflexivity.
Defined.

(** With an answering client the witness run makes one call, for 0.0105. *)
Example online_run_costs :
  let r := process_pdf (online_world engine_manual answering_client)
                       (cps "/manuals/toyota-camry-2015.pdf") (cps "out") None 0 in
  total_claude_calls r = 1%nat
  /\ (total_cost r == 105 # 10000)%Q
  /\ map (fun f => doc_type (meta (file_record f))) (files r) = [cps "wiring"].
Proof. vm_compute. repeat split. Qed.

(** *** Decimal rendering *)

Lemma digits_go_acc (fuel : nat) :
  forall (n : N) (acc : str), digits_go fuel n acc = digits_go fuel n [] ++ acc.
Proof.
  induction fuel as [|f IH]; intros n acc; [reflexivity|].
  cbn [digits_go]. destruct (n <? 10)%N; [reflexivity|].
  rewrite (IH _ (_ :: acc)), (IH _ [_]), <- app_assoc. reflexivity.
Qed.

Lemma int_of_digits_snoc (s : str) (d : char) :
  int_of_digits (s ++ [d]) = (int_of_digits s * 10 + (Z.of_N d - 48))%Z.
Proof. unfold int_of_digits. now rewrite fold_left_app. Qed.

Lemma int_of_digits_go (fuel : nat) :
  forall n : N, (n < 10 ^ N.of_nat fuel)%N -> (0 < fuel)%nat ->
                int_of_digits (digits_go fuel n []) = Z.of_N n.
Proof.
  induction fuel as [|f IH]; intros n Hn Hf; [lia|].
  cbn [digits_go]. destruct (N.ltb_spec n 10) as [Hlt|Hge].
  - unfold int_of_digits. cbn [fold_left]. rewrite N.mod_small by exact Hlt. lia.
  - rewrite digits_go_acc, int_of_digits_snoc.
    assert (Hf' : (0 < f)%nat).
    { destruct f; [|lia]. simpl in Hn. lia. }
    rewrite IH; [| |exact Hf'].
    + pose proof (N.div_mod n 10 ltac:(lia)) as Hdm.
      pose proof (N.mod_lt n 10 ltac:(lia)) as Hm. lia.
    + apply N.Div0.div_lt_upper_bound.
      replace (N.of_nat (S f)) with (N.succ (N.of_nat f)) in Hn by lia.
      now rewrite N.pow_succ_r' in Hn.
Qed.

(** Reading back the decimal rendering of a natural number. *)
Lemma int_of_digits_str_of_N (n : N) : int_of_digits (str_of_N n) = Z.of_N n.
Proof.
  unfold str_of_N. apply int_of_digits_go; [|lia].
  destruct n as [|p]; [reflexivity|].
  rewrite Nat2N.inj_succ, N2Nat.id.
  eapply N.lt_le_trans; [apply N.log2_spec; lia|].
  apply N.pow_le_mono_l. lia.
Qed.

Lemma int_of_digits_zeros (k : nat) (s : str) :
  int_of_digits (repeat 48%N k ++ s) = int_of_digits s.
Proof.
  unfold int_of_digits. rewrite fold_left_app. f_equal.
  induction k as [|k IH]; [reflexivity|]. exact IH.
Qed.

Lemma int_of_digits_str_of_int (z : Z) :
  (0 <= z)%Z -> int_of_digits (str_of_int z) = z.
Proof.
  intros Hz. destruct z as [|p|p]; [reflexivity| |lia].
  unfold str_of_int. rewrite int_of_digits_str_of_N. reflexivity.
Qed.

Lemma int_of_digits_fmt_03d (z : Z) :
  (0 <= z)%Z -> int_of_digits (fmt_03d z) = z.
Proof.
  intros Hz. destruct z as [|p|p]; [reflexivity| |lia].
  unfold fmt_03d, pad3. rewrite int_of_digits_zeros, int_of_digits_str_of_N.
  reflexivity.
Qed.

Lemma app_same_length_tail (a b t t' : str) :
  a ++ t = b ++ t' -> length t = length t' -> a = b.
Proof.
  intros H Hl.
  rewrite <- (firstn_length_diff a t), <- (firstn_length_diff b t').
  now rewrite H, Hl.
Qed.

(** *** Identifiers of a run *)

Lemma output_filename_inj (v : vehicle) (i j : Z) (h h' : str) :
  (0 <= i)%Z -> (0 <= j)%Z -> length h = 8%nat -> length h' = 8%nat ->
  output_filename v i h = output_filename v j h' -> i = j.
Proof.
  intros Hi Hj Hh Hh' H. unfold output_filename in H.
  repeat apply app_inv_head in H.
  apply app_same_length_tail in H.
  - rewrite <- (int_of_digits_fmt_03d Hi), <- (int_of_digits_fmt_03d Hj). now rewrite H.
  - rewrite !length_app, Hh, Hh'. reflexivity.
Qed.

Lemma make_source_id_inj (v : vehicle) (i j : Z) :
  (0 <= i)%Z -> (0 <= j)%Z -> make_source_id v i = make_source_id v j -> i = j.
Proof.
  intros Hi Hj H. unfold make_source_id in H.
  repeat apply app_inv_head in H.
  rewrite <- (int_of_digits_str_of_int Hi), <- (int_of_digits_str_of_int Hj).
  now rewrite H.
Qed.

Lemma path_join_inj (dir a b : str) : path_join dir a = path_join dir b -> a = b.
Proof.
  unfold path_join. destruct dir as [|d dir]; [easy|].
  destruct (last (d :: dir) 0 =? 47)%N; intros H.
  - now apply app_inv_head in H.
  - apply app_inv_head in H. now injection H.
Qed.

Lemma build_output_fields (s : section) (idx : Z) (v : vehicle)
      (ner : list (string * list str)) (cr : option claude_result)
      (pdf_path now : str) :
  let r := build_output s idx v ner cr pdf_path now in
  source_id r = make_source_id v idx
  /\ rec_title r = sec_title s
  /\ content r = firstn (Z.to_nat 10000) (sec_content s)
  /\ ner_results (meta r) = filter (fun kv => nonempty_list (snd kv)) ner
  /\ part_numbers (meta r) = ner_list "part_numbers" ner.
Proof. destruct cr; repeat split. Qed.

Lemma skipn_cons_nth (A : Type) (l : list A) :
  forall (k : nat) (x : A) (rest : list A),
    skipn k l = x :: rest -> nth_error l k = Some x /\ skipn (S k) l = rest.
Proof.
  induction l as [|a l IH]; intros [|k] x rest H; try discriminate.
  - injection H as -> ->. now split.
  - now apply IH.
Qed.

Lemma Forall2_snoc (A B : Type) (R : A -> B -> Prop) (l : list A) (l' : list B)
      (a : A) (b : B) :
  Forall2 R l l' -> R a b -> Forall2 R (l ++ [a]) (l' ++ [b]).
Proof. intros H Hab. apply Forall2_app; [exact H|]. now constructor. Qed.

(** The files of the section loop follow the sections in order. *)
Lemma process_sections_follow (cl : option client) (v : vehicle)
      (pdf_path output_dir now : str) (all : list section) (sections : list section) :
  forall (idx : Z) (acc : run) (idxs : list Z),
    (0 <= idx)%Z ->
    skipn (Z.to_nat idx) all = sections ->
    files_follow v all (files acc) idxs ->
    Forall (fun i => (i < idx)%Z) idxs ->
    exists idxs',
      files_follow v all
        (files (process_sections cl v pdf_path output_dir now idx sections acc)) idxs'.
Proof.
  induction sections as [|s rest IH]; intros idx acc idxs Hidx Hskipn Hfol Hlt.
  - now exists idxs.
  - rewrite process_sections_cons.
    apply skipn_cons_nth in Hskipn. destruct Hskipn as [Hnth Hrest].
    assert (Hrest' : skipn (Z.to_nat (idx + 1)) all = rest).
    { replace (Z.to_nat (idx + 1)) with (S (Z.to_nat idx)) by lia. exact Hrest. }
    assert (Hlt' : Forall (fun i => (i < idx + 1)%Z) idxs).
    { eapply Forall_impl; [|exact Hlt]. simpl. intros; lia. }
    destruct (should_skip_section (sec_title s) (sec_content s)) eqn:Hs.
    { apply (IH (idx + 1)%Z acc idxs); [lia|exact Hrest'|exact Hfol|exact Hlt']. }
    destruct (llm_stage_spec cl v s acc) as (Hfiles & _).
    destruct (content_hash (sec_content s)) as [h|] eqn:Hh.
    + apply (IH (idx + 1)%Z _ (idxs ++ [idx])); [lia|exact Hrest'| |].
      * destruct Hfol as [Hf2 Hsorted]. simpl. rewrite Hfiles. split.
        -- apply Forall2_snoc; [exact Hf2|].
           exists s, h.
           destruct (build_output_fields s idx v (regex_ner (sec_content s))
                       (fst (llm_stage cl v s acc)) pdf_path now)
             as (E1 & E2 & E3 & _).
           repeat split; assumption.
        -- apply StronglySorted_app_iff. repeat split.
           ++ exact Hsorted.
           ++ repeat constructor.
           ++ intros x y Hx [<-|[]]. rewrite Forall_forall in Hlt. now apply Hlt.
      * apply Forall_app. split; [exact Hlt'|]. constructor; [lia|constructor].
    + exists idxs. simpl. now rewrite Hfiles.
Qed.

(** The files of a run follow the extracted sections in order. *)
Lemma process_pdf_follow (w : world) (pdf_path output_dir : str)
      (vehicle_override : option vehicle) (max_pages : Z) (pages : list page) :
  open_pdf w (abspath w pdf_path) = Some pages ->
  exists idxs,
    files_follow (run_vehicle w pdf_path vehicle_override)
                 (extract_sections pages max_pages)
                 (files (process_pdf w pdf_path output_dir vehicle_override max_pages))
                 idxs.
Proof.
  intros Hopen. unfold process_pdf. rewrite Hopen. fold (run_vehicle w pdf_path vehicle_override).
  destruct (extract_sections pages max_pages) as [|s0 rest] eqn:Hsecs.
  - exists []. split; constructor.
  - apply (@process_sections_follow _ _ _ _ _ (s0 :: rest) (s0 :: rest) 0%Z empty_run []).
    + lia.
    + reflexivity.
    + split; constructor.
    + constructor.
Qed.

Lemma Forall2_In_left (A B : Type) (R : A -> B -> Prop) (l : list A) (l' : list B)
      (a : A) :
  Forall2 R l l' -> In a l -> exists b, In b l' /\ R a b.
Proof.
  induction 1 as [|x y l l' Hxy _ IH]; intros Hin; [destruct Hin|].
  destruct Hin as [<-|Hin]; [exists y; split; [now left|exact Hxy]|].
  destruct (IH Hin) as (b & Hb & Hab). exists b. split; [now right|exact Hab].
Qed.

Lemma files_follow_NoDup (A : Type) (key : written_file -> A) (v : vehicle)
      (sections : list section) :
  (forall f g i j, written_for v sections f i -> written_for v sections g j ->
                   key f = key g -> i = j) ->
  forall (fs : list written_file) (idxs : list Z),
    files_follow v sections fs idxs -> NoDup (map key fs).
Proof.
  intros Hinj fs idxs [Hf2 Hsorted]. revert Hsorted.
  induction Hf2 as [|f i fs idxs Hfi Hrest IH]; intros Hsorted; [constructor|].
  apply Sorted.StronglySorted_inv in Hsorted. destruct Hsorted as [Hs Hall].
  simpl. constructor; [|now apply IH].
  intros Hin. apply in_map_iff in Hin. destruct Hin as (g & Hkey & Hg).
  destruct (@Forall2_In_left _ _ _ _ _ g Hrest Hg) as (j & Hj & Hgj).
  rewrite Forall_forall in Hall. specialize (Hall j Hj).
  assert (i = j) by (apply (Hinj f g i j); [exact Hfi|exact Hgj|now symmetry]).
  lia.
Qed.

(** A property of each written file holds of all files of the loop. *)
Lemma process_sections_each (cl : option client) (v : vehicle)
      (pdf_path output_dir now : str) (P : written_file -> Prop) :
  (forall s idx cr h, P (section_file v pdf_path output_dir now idx s cr h)) ->
  forall (sections : list section) (idx : Z) (acc : run),
    Forall P (files acc) ->
    Forall P (files (process_sections cl v pdf_path output_dir now idx sections acc)).
Proof.
  intros HP sections. induction sections as [|s rest IH]; intros idx acc Hacc;
    [exact Hacc|].
  rewrite process_sections_cons.
  destruct (should_skip_section (sec_title s) (sec_content s)); [now apply IH|].
  destruct (llm_stage_spec cl v s acc) as (Hfiles & _).
  destruct (content_hash (sec_content s)) as [h|].
  - apply IH. simpl. rewrite Hfiles. apply Forall_app. split; [exact Hacc|].
    constructor; [apply HP|constructor].
  - simpl. now rewrite Hfiles.
Qed.

Lemma process_pdf_each (w : world) (pdf_path output_dir : str)
      (vehicle_override : option vehicle) (max_pages : Z) (P : written_file -> Prop) :
  (forall s idx cr h,
      P (section_file (run_vehicle w pdf_path vehicle_override) (abspath w pdf_path)
                      output_dir (utc_now w) idx s cr h)) ->
  Forall P (files (process_pdf w pdf_path output_dir vehicle_override max_pages)).
Proof.
  intros HP. unfold process_pdf. fold (run_vehicle w pdf_path vehicle_override).
  destruct (open_pdf w (abspath w pdf_path)) as [pages|]; [|constructor].
  destruct (extract_sections pages max_pages) as [|s0 rest]; [constructor|].
  apply process_sections_each; [exact HP|constructor].
Qed.

Lemma NoDup_map_injective (A B : Type) (f : A -> B) (l : list A) :
  (forall x y, f x = f y -> x = y) -> NoDup l -> NoDup (map f l).
Proof.
  intros Hinj. induction 1 as [|x l Hx _ IH]; simpl; constructor; [|exact IH].
  intros Hin. apply in_map_iff in Hin. destruct Hin as (y & Hy & Hyl).
  apply Hinj in Hy. now subst.
Qed.

(** X14: no two records of a run share a file name, a file path or a
    source identifier, so no record overwrites another. *)
Theorem written_files_are_distinct :
  forall (w : world) (pdf_path output_dir : str)
         (vehicle_override : option vehicle) (max_pages : Z),
    let r := process_pdf w pdf_path output_dir vehicle_override max_pages in
    NoDup (map file_name (files r))
    /\ NoDup (map file_path (files r))
    /\ NoDup (map (fun f => source_id (file_record f)) (files r)).
Proof.
  intros w pdf_path output_dir vo max_pages r.
  assert (Hnames : NoDup (map file_name (files r))
                   /\ NoDup (map (fun f => source_id (file_record f)) (files r))).
  { destruct (open_pdf w (abspath w pdf_path)) as [pages|] eqn:Hopen.
    - destruct (@process_pdf_follow w pdf_path output_dir vo max_pages pages Hopen)
        as (idxs & Hfol).
      split.
      + refine (@files_follow_NoDup _ file_name _ _ _ _ _ Hfol).
        intros f g i j Hf Hg Hk.
        destruct Hf as (s & h & Hi & _ & _ & Hh & Hn & _).
        destruct Hg as (s' & h' & Hj & _ & _ & Hh' & Hn' & _).
        rewrite Hn, Hn' in Hk.
        apply (output_filename_inj Hi Hj (proj1 (content_hash_shape _ Hh))
                                   (proj1 (content_hash_shape _ Hh')) Hk).
      + refine (@files_follow_NoDup _ (fun f => source_id (file_record f)) _ _ _ _ _ Hfol).
        intros f g i j Hf Hg Hk.
        destruct Hf as (s & h & Hi & _ & _ & _ & _ & Hid & _).
        destruct Hg as (s' & h' & Hj & _ & _ & _ & _ & Hid' & _).
        simpl in Hk. rewrite Hid, Hid' in Hk.
        apply (make_source_id_inj Hi Hj Hk).
    - subst r. unfold process_pdf. rewrite Hopen. split; constructor. }
  destruct Hnames as [Hn Hid]. split; [exact Hn|]. split; [|exact Hid].
  assert (Hpath : Forall (fun f => file_path f = path_join output_dir (file_name f))
                         (files r)).
  { apply process_pdf_each. reflexivity. }
  replace (map file_path (files r)) with (map (path_join output_dir) (map file_name (files r))).
  - apply NoDup_map_injective; [apply path_join_inj|exact Hn].
  - rewrite map_map. apply map_ext_in. intros f Hf.
    rewrite Forall_forall in Hpath. symmetry. now apply Hpath.
Qed.



(** X16: every record of a run holds at most 10,000 characters of content,
    lists under [ner_results] only categories with at least one entity,
    and is tagged with source "manual" and author "OEM". *)
Theorem records_are_capped :
  forall (w : world) (pdf_path output_dir : str)
         (vehicle_override : option vehicle) (max_pages : Z),
    Forall (fun f =>
              (Z.of_nat (length (content (file_record f))) <= 10000)%Z
              /\ Forall (fun kv => snd kv <> []) (ner_results (meta (file_record f)))
              /\ source (file_record f) = cps "manual"
              /\ author (file_record f) = cps "OEM")
           (files (process_pdf w pdf_path output_dir vehicle_override max_pages)).
Proof.
  intros w pdf_path output_dir vo max_pages.
  apply process_pdf_each. intros s idx cr h. cbn [section_file file_record].
  destruct (build_output_fields s idx (run_vehicle w pdf_path vo)
              (regex_ner (sec_content s)) cr (abspath w pdf_path) (utc_now w))
    as (_ & _ & Hc & Hn & _).
  rewrite Hc, Hn. repeat split.
  - pose proof (firstn_le_length (Z.to_nat 10000) (sec_content s)). lia.
  - apply Forall_forall. intros kv Hkv. apply filter_In in Hkv.
    destruct Hkv as [_ Hne]. destruct (snd kv); [discriminate|discriminate].
  - destruct cr; reflexivity.
  - destruct cr; reflexivity.
Qed.

(** *** Encoding *)









(** A lone surrogate in the first 500 characters stops the run. *)
Example surrogate_raises :
  let doc := [mk_page (Some (55357%N :: repeat 97%N 300)) []] in
  let r := process_pdf (offline_world doc (cps "2024-05-01T10:00:00Z"))
                       (cps "/manuals/toyota-camry-2015.pdf") (cps "out") None 0 in
  raised r = true /\ files r = [].
Proof. vm_compute. split; reflexivity. Qed.

(** *** Command line, continued *)

Lemma parse_loop_nonflag (st : vehicle * Z) (t : str) (l : list str) :
  is_flag t = false -> parse_loop st (t :: l) = parse_loop st l.
Proof.
  intros Ht. destruct l as [|b rest]; [now destruct st|].
  now apply parse_loop_other.
Qed.

(** Options are read from left to right: after well-formed arguments the
    loop continues on what follows with the state they leave. *)
Lemma parse_loop_app (pre : list str) :
  well_formed pre ->
  forall (st : vehicle * Z) (post : list str),
    parse_loop st (pre ++ post)
    = match parse_loop st pre with
      | Some st' => parse_loop st' post
      | None => None
      end.
Proof.
  induction 1 as [|v rest _ IH|v rest _ IH|v y rest Hy _ IH|v n rest Hn _ IH
                  |t rest Ht _ IH]; intros [v0 mp] post.
  - reflexivity.
  - exact (IH (mk_vehicle v (model v0) (year v0), mp) post).
  - exact (IH (mk_vehicle (make v0) v (year v0), mp) post).
  - cbn. rewrite Hy. exact (IH (mk_vehicle (make v0) (model v0) y, mp) post).
  - cbn. rewrite Hn. exact (IH (v0, n) post).
  - change ((t :: rest) ++ post) with (t :: (rest ++ post)).
    rewrite !parse_loop_nonflag by exact Ht. apply IH.
Qed.

Lemma well_formed_parses (pre : list str) (st : vehicle * Z) :
  well_formed pre -> parse_loop st pre <> None.
Proof.
  intros H. exact (proj2 (parse_loop_trailing H st [])).
Qed.

(** X18: the last override wins.  After any well-formed arguments, a final
    [--make], [--model], [--year] or [--max-pages] with its value sets that
    field to the value, whatever the earlier arguments set. *)
Theorem last_override_wins :
  forall (pre : list str) (st : vehicle * Z) (value number : str) (n : Z),
    well_formed pre ->
    parse_int number = Some n ->
    (exists st', parse_loop st (pre ++ [cps "--make"; value]) = Some st'
                 /\ make (fst st') = value)
    /\ (exists st', parse_loop st (pre ++ [cps "--model"; value]) = Some st'
                    /\ model (fst st') = value)
    /\ (exists st', parse_loop st (pre ++ [cps "--year"; number]) = Some st'
                    /\ year (fst st') = n)
    /\ (exists st', parse_loop st (pre ++ [cps "--max-pages"; number]) = Some st'
                    /\ snd st' = n).
Proof.
  intros pre st value number n Hwf Hn.
  pose proof (well_formed_parses st Hwf) as Hsome.
  rewrite !(parse_loop_app Hwf).
  destruct (parse_loop st pre) as [[v mp]|]; [|contradiction].
  repeat split.
  - now exists (mk_vehicle value (model v) (year v), mp).
  - now exists (mk_vehicle (make v) value (year v), mp).
  - exists (mk_vehicle (make v) (model v) n, mp). cbn. now rewrite Hn.
  - exists (v, n). cbn. now rewrite Hn.
Qed.

Lemma last_override_wins_witness :
  exists st',
    parse_loop (detect_vehicle_from_filename (cps "camry-2015.pdf"), 0%Z)
               ([cps "--year"; cps "1999"; cps "--make"; cps "Lexus"]
                  ++ [cps "--year"; cps " 2_001 "]) = Some st'
    /\ year (fst st') = 2001%Z.
Proof.
  apply (@last_override_wins [cps "--year"; cps "1999"; cps "--make"; cps "Lexus"]
                             _ (cps "Kia") (cps " 2_001 ") 2001%Z).
  - apply (@wf_year _ 1999%Z); [reflexivity|]. apply wf_make, wf_nil.
  - reflexivity.
Defined.



(** *** Vehicle detection *)

(** What a successful literal consumed. *)
Lemma run_chrs_sound (A : Type) (cs : str) :
  forall (prev : option char) (s : str) (k : option char -> str -> option A) (x : A),
    Re.run (seq (map chr cs)) prev s k = Some x ->
    exists rest pr, s = cs ++ rest /\ k pr rest = Some x.
Proof.
  induction cs as [|c cs IH]; intros prev s k x H.
  - now exists s, prev.
  - change (map chr (c :: cs)) with (chr c :: map chr cs) in H.
    rewrite run_seq_cons in H. destruct s as [|a t]; [discriminate|].
    cbn [Re.run chr] in H. destruct (N.eqb_spec c a) as [->|]; [|discriminate].
    apply IH in H. destruct H as (rest & pr & -> & Hk). now exists rest, pr.
Qed.

Lemma run_two_digits (prev : option char) (s rest : str) :
  Re.run (between isdigit 2 2) prev s (fun _ r => Some r) = Some rest ->
  exists c d, s = c :: d :: rest /\ isdigit c = true /\ isdigit d = true.
Proof.
  intros H. cbn [Re.run between] in H. apply rep_go_sound in H.
  destruct H as (taken & rest' & pr & -> & Hp & Hlo & Hhi & [= ->]).
  specialize (Hhi 2%nat eq_refl).
  destruct taken as [|c [|d [|e taken]]]; simpl in Hlo, Hhi; try lia.
  simpl in Hp. rewrite andb_true_r in Hp. apply andb_true_iff in Hp.
  now exists c, d.
Qed.

(** What a match of the year pattern consumed. *)
Lemma match_here_year (prev : option char) (s rest : str) :
  match_here RE_YEAR prev s = Some rest ->
  exists c d, isdigit c = true /\ isdigit d = true
              /\ (s = cps "19" ++ c :: d :: rest \/ s = cps "20" ++ c :: d :: rest).
Proof.
  unfold match_here, RE_YEAR. intros H.
  rewrite run_seq_cons in H. cbn [Re.run seq] in H.
  destruct (Re.run (lit "19") prev s _) as [x|] eqn:E19.
  - injection H as ->. apply run_chrs_sound in E19.
    destruct E19 as (t & pr & -> & Hd). apply run_two_digits in Hd.
    destruct Hd as (c & d & -> & Hc & Hd). exists c, d. repeat split; try assumption.
    now left.
  - apply run_chrs_sound in H.
    destruct H as (t & pr & -> & Hd). apply run_two_digits in Hd.
    destruct Hd as (c & d & -> & Hc & Hd). exists c, d. repeat split; try assumption.
    now right.
Qed.

Lemma isdigit_bounds (c : char) : isdigit c = true -> (48 <= Z.of_N c <= 57)%Z.
Proof.
  unfold isdigit, within. intros H. apply andb_true_iff in H.
  destruct H as [H1 H2]. apply N.leb_le in H1, H2. lia.
Qed.

(** X20: the year detected from a file name is 0 (none found) or lies
    between 1900 and 2099. *)
Theorem detected_year_range :
  forall pdf_path : str,
    let y := year (detect_vehicle_from_filename pdf_path) in
    y = 0%Z \/ (1900 <= y <= 2099)%Z.
Proof.
  intros pdf_path. unfold detect_vehicle_from_filename. cbn [year].
  destruct (search RE_YEAR (lower (path_stem pdf_path))) as [g|] eqn:E; [|now left].
  right. unfold search in E.
  assert (Hin : In g (findall RE_YEAR (lower (path_stem pdf_path)))).
  { destruct (findall RE_YEAR (lower (path_stem pdf_path))); [discriminate|].
    injection E as ->. now left. }
  unfold findall in Hin. apply findall_go_sound in Hin.
  destruct Hin as (prev & s & rest & Hm & ->).
  apply match_here_year in Hm. destruct Hm as (c & d & Hc & Hd & [-> | ->]);
    apply isdigit_bounds in Hc, Hd;
    change (cps "19" ++ c :: d :: rest) with ([49%N; 57%N; c; d] ++ rest);
    change (cps "20" ++ c :: d :: rest) with ([50%N; 48%N; c; d] ++ rest);
    rewrite firstn_length_diff; unfold int_of_digits; cbn [fold_left]; lia.
Qed.

(** X21: a detected vehicle always has names: the model is never empty, and
    the make is "Unknown" or a display name of the table of known makes. *)
Theorem detected_vehicle_is_named :
  forall pdf_path : str,
    let v := detect_vehicle_from_filename pdf_path in
    model v <> []
    /\ (make v = cps "Unknown" \/ In (make v) (map (fun kv => cps (snd kv)) known_makes)).
Proof.
  intros pdf_path. unfold detect_vehicle_from_filename.
  set (name := lower (path_stem pdf_path)).
  set (special := contains (cps "3s") name && contains (cps "gte") name).
  cbn [model make]. split.
  - destruct special; [discriminate|].
    match goal with |- or_else ?m _ <> [] => destruct m; discriminate end.
  - destruct (find (fun kv => contains (cps (fst kv)) name) known_makes) as [kv|] eqn:E.
    + right. apply find_some in E. destruct E as [Hin _].
      assert (Hne : cps (snd kv) <> []).
      { unfold known_makes in Hin. simpl in Hin.
        repeat (destruct Hin as [<-|Hin]; [discriminate|]). destruct Hin. }
      assert (Hsame : forall d, or_else (cps (snd kv)) d = cps (snd kv))
        by (intros d; destruct (cps (snd kv)); [contradiction|reflexivity]).
      destruct special; rewrite !Hsame; now apply in_map with (f := fun kv => cps (snd kv)).
    + destruct special; [right; simpl; tauto|now left].
Qed.

Lemma split_nonempty (sep : char) (s : str) : split sep s <> [].
Proof.
  destruct s as [|c r]; [discriminate|]. simpl.
  destruct (c =? sep)%N; [discriminate|]. destruct (split sep r); discriminate.
Qed.

(** Splitting at a separator splits the pieces on either side of it. *)
Lemma split_app (sep : char) (a b : str) :
  split sep (a ++ sep :: b) = split sep a ++ split sep b.
Proof.
  induction a as [|c a IH]; simpl.
  - now rewrite N.eqb_refl.
  - destruct (c =? sep)%N; [now rewrite IH|].
    rewrite IH. pose proof (split_nonempty sep a) as Hne.
    destruct (split sep a); [contradiction|reflexivity].
Qed.

Lemma split_without_sep (sep : char) (s : str) :
  ~ In sep s -> split sep s = [s].
Proof.
  induction s as [|c r IH]; intros H; [reflexivity|]. simpl.
  destruct (N.eqb_spec c sep) as [->|Hne]; [exfalso; apply H; now left|].
  rewrite IH; [reflexivity|]. intros Hin. apply H. now right.
Qed.

Lemma path_name_in_directory (dir name : str) :
  ~ In 47%N name -> name <> [] -> name <> cps "." ->
  path_name (dir ++ 47%N :: name) = name /\ path_name name = name.
Proof.
  intros Hsep Hne Hdot.
  assert (Hkeep : negb (str_eqb name [] || str_eqb name (cps ".")) = true).
  { rewrite (str_eqb_neq Hne), (str_eqb_neq Hdot). reflexivity. }
  assert (Hone : forall (f : str -> bool) (x : str),
             filter f [x] = if f x then [x] else []) by reflexivity.
  unfold path_name. rewrite split_app, (@split_without_sep 47%N name Hsep), filter_app.
  rewrite Hone, Hkeep. split; [apply last_last|reflexivity].
Qed.

(** X22: detection looks at the file name only.  Whatever directory a
    document lies in, the detected vehicle is that of its file name, so a
    directory called "toyota" or "2015" changes nothing. *)
Theorem detection_ignores_directory :
  forall dir name : str,
    ~ In 47%N name -> name <> [] -> name <> cps "." ->
    detect_vehicle_from_filename (dir ++ 47%N :: name)
    = detect_vehicle_from_filename name.
Proof.
  intros dir name Hsep Hne Hdot.
  destruct (@path_name_in_directory dir name Hsep Hne Hdot) as [H1 H2].
  unfold detect_vehicle_from_filename, path_stem. now rewrite H1, H2.
Qed.

Lemma detection_ignores_directory_witness :
  detect_vehicle_from_filename (cps "/srv/toyota/2015" ++ 47%N :: cps "honda-civic-2003.pdf")
  = detect_vehicle_from_filename (cps "honda-civic-2003.pdf").
Proof.
  apply detection_ignores_directory.
  - simpl. intros H. repeat (destruct H as [H|H]; [discriminate|]). exact H.
  - discriminate.
  - discriminate.
Defined.

(** *** Exit status, continued *)





(** *** Requests and blank documents *)

Lemma process_sections_requests_exact (c : client) (v : vehicle)
      (pdf_path output_dir now : str) (sections : list section) :
  forall (idx : Z) (acc : run),
    let r := process_sections (Some c) v pdf_path output_dir now idx sections acc in
    raised r = false ->
    llm_requests r
    = llm_requests acc ++ map (request_of v) (filter sent_to_llm sections).
Proof.
  induction sections as [|s rest IH]; intros idx acc.
  - simpl. intros _. now rewrite app_nil_r.
  - cbv zeta. rewrite process_sections_cons. cbn [filter].
    unfold sent_to_llm at 1, not_skipped.
    destruct (should_skip_section (sec_title s) (sec_content s)); [apply IH|].
    destruct (content_hash (sec_content s)) as [h|]; [|discriminate].
    intros Hr. rewrite IH by exact Hr. cbn [add_file llm_requests negb andb].
    destruct (llm_stage_spec (Some c) v s acc)
      as (_ & _ & [(_ & -> & _ & _ & [Hc|Hlong])|(c' & _ & Hlong & _ & -> & _)]).
    + discriminate.
    + now rewrite Hlong.
    + rewrite Hlong. cbn [map]. now rewrite <- app_assoc.
Qed.

(** X25: with a client set up, a run that ends without exception has sent
    exactly one request for each section that is not skipped and is longer
    than 200 characters after stripping, in section order, and none for
    any other section. *)
Theorem one_request_per_long_section :
  forall (w : world) (pdf_path output_dir : str)
         (vehicle_override : option vehicle) (max_pages : Z) (pages : list page)
         (c : client),
    open_pdf w (abspath w pdf_path) = Some pages ->
    setup_client w = Some c ->
    let r := process_pdf w pdf_path output_dir vehicle_override max_pages in
    raised r = false ->
    llm_requests r
    = map (request_of (run_vehicle w pdf_path vehicle_override))
          (filter sent_to_llm (extract_sections pages max_pages)).
Proof.
  intros w pdf_path output_dir vo max_pages pages c Hopen Hcl.
  unfold process_pdf. rewrite Hopen, Hcl. fold (run_vehicle w pdf_path vo).
  destruct (extract_sections pages max_pages) as [|s0 rest]; [reflexivity|].
  intros Hr. now rewrite process_sections_requests_exact.
Qed.

Lemma one_request_per_long_section_witness :
  llm_requests (process_pdf (online_world engine_manual answering_client)
                            (cps "/manuals/toyota-camry-2015.pdf") (cps "out") None 0)
  = map (request_of (run_vehicle (online_world engine_manual answering_client)
                                 (cps "/manuals/toyota-camry-2015.pdf") None))
        (filter sent_to_llm (extract_sections engine_manual 0)).
Proof.
  apply (@one_request_per_long_section _ _ _ _ _ engine_manual answering_client).
  - reflexivity.
  - reflexivity.
  - vm_compute. reflexivity.
Defined.

Lemma blank_flat_map (txt : Z -> str) (l : list Z) :
  Forall (fun i => nonblank (txt i) = false) l ->
  nonblank (flat_map (fun i => txt i ++ [10%N]) l) = false.
Proof.
  induction 1 as [|i l Hi _ IH]; [reflexivity|].
  simpl. rewrite !nonblank_app, Hi, IH. reflexivity.
Qed.

(** X26: extraction yields no section exactly when every processed page has
    blank text: a document of scanned pages, like a document without pages,
    gives nothing to process. *)
Theorem no_sections_iff_blank :
  forall (pages : list page) (max_pages : Z),
    extract_sections pages max_pages = []
    <-> Forall (fun i => nonblank (page_text_at pages i) = false)
               (page_numbers (pages_processed pages max_pages)).
Proof.
  intros pages max_pages. split.
  - intros Hnil. apply Forall_forall. intros i Hi.
    destruct (nonblank (page_text_at pages i)) eqn:Hnb; [|reflexivity].
    destruct (extract_sections_partition pages max_pages)
      as (groups & Hpart & Hout & Hcarry).
    rewrite <- Hpart in Hi. unfold all_pages in Hi. apply in_concat in Hi.
    destruct Hi as (ps & Hps & Hin). apply in_map_iff in Hps.
    destruct Hps as (g & <- & Hg).
    rewrite Forall_forall in Hcarry. pose proof (Hcarry g Hg i Hin Hnb) as Hk.
    assert (Hgo : In g (extract_sections pages max_pages))
      by (rewrite Hout; apply filter_In; now split).
    rewrite Hnil in Hgo. destruct Hgo.
  - intros Hblank.
    pose proof (extract_sections_built pages max_pages) as Hb.
    destruct (extract_sections_partition pages max_pages)
      as (groups & Hpart & Hout & _).
    destruct (extract_sections pages max_pages) as [|g rest] eqn:E; [reflexivity|].
    exfalso. inversion Hb as [|g' rest' [Hg Hk] _]; subst.
    unfold kept in Hk. rewrite (built_content Hg) in Hk.
    rewrite blank_flat_map in Hk; [discriminate|].
    apply Forall_forall. intros i Hi.
    rewrite Forall_forall in Hblank. apply Hblank.
    rewrite <- Hpart. apply (all_pages_filter_incl kept groups).
    rewrite <- Hout. unfold all_pages. simpl. apply in_or_app. now left.
Qed.
